(** * PERMAFROST whitepaper build script: anchors and heading buffer

    A shallow embedding of the control-flow core of
    [docs/cryptography/permafrost-whitepaper-build.py]:

    - [_make_anchor], the heading-text -> anchor-id function, together with
      the fragment of Python's [re] and [str] it relies on;
    - the table-of-contents loop that re-derives anchors from [toc_entries];
    - the buffered heading system ([_pending_heading], [_flush_heading],
      [_flush_heading_with], [section_heading], [sub_heading],
      [sub_sub_heading], [spacer] and the content helpers);
    - the inline markup helpers [esc], [b], [i] and [mono], and the row
      markup of the table-of-contents loop.

    Python [str] values are sequences of Unicode code points; they are
    modelled as lists of [N].  The flowable constructors of the external
    [generator] module are modelled as the constructors of an inductive
    type. *)

From Stdlib Require QArith.QArith_base.
From Stdlib Require Import String Ascii NArith ZArith Bool Arith Lia List.
Import ListNotations.

Set Warnings "-register-all".

Local Open Scope list_scope.

(* ================================================================== *)
(** ** Text: Python [str] as a list of code points *)
(* ================================================================== *)

Module Text.

Local Open Scope N_scope.

Definition char := N.
Definition str := list char.

(** An ASCII literal of the source, as code points. *)
Definition lit (s : string) : str := map N_of_ascii (list_ascii_of_string s).

Definition in_range (lo hi c : char) : bool := (lo <=? c) && (c <=? hi).

Definition is_char (a : char) (c : char) : bool := (a =? c).

(** Named code points used by the script. *)
Definition c_space : char := 32.
Definition c_quote : char := 34.
Definition c_dot : char := 46.
Definition c_colon : char := 58.
Definition c_lt : char := 60.
Definition c_gt : char := 62.
Definition c_underscore : char := 95.

(** [str.isspace] on one character, which is also the class [\s] of [re]
    for [str] patterns: the 29 white-space code points of CPython. *)
Definition isspace (c : char) : bool :=
  in_range 9 13 c || in_range 28 32 c || is_char 133 c || is_char 160 c
  || is_char 5760 c || in_range 8192 8202 c || is_char 8232 c
  || is_char 8233 c || is_char 8239 c || is_char 8287 c || is_char 12288 c.

(** The white-space code points, listed. *)
Definition space_points : list char :=
  [ 9; 10; 11; 12; 13; 28; 29; 30; 31; 32; 133; 160; 5760; 8192; 8193;
    8194; 8195; 8196; 8197; 8198; 8199; 8200; 8201; 8202; 8232; 8233;
    8239; 8287; 12288 ].

(** First code point of every run of ten decimal digits (general category
    Nd, Unicode 14.0), except the mathematical digits, which form one run
    of fifty. *)
Definition nd_decades : list char :=
  [ 48; 1632; 1776; 1984; 2406; 2534; 2662; 2790; 2918; 3046; 3174; 3302;
    3430; 3558; 3664; 3792; 3872; 4160; 4240; 6112; 6160; 6470; 6608; 6784;
    6800; 6992; 7088; 7232; 7248; 42528; 43216; 43264; 43472; 43504; 43600;
    44016; 65296; 66720; 68912; 69734; 69872; 69942; 70096; 70384; 70736;
    70864; 71248; 71360; 71472; 71904; 72016; 72784; 73040; 73120; 92768;
    92864; 93008; 123200; 123632; 125264; 130032 ].

(** The class [\d] of [re] for [str] patterns: any Unicode decimal digit. *)
Definition isdecimal (c : char) : bool :=
  existsb (fun lo => in_range lo (lo + 9) c) nd_decades
  || in_range 120782 120831 c.

Definition ascii_digit (c : char) : bool := in_range 48 57 c.
Definition ascii_upper (c : char) : bool := in_range 65 90 c.
Definition ascii_lower (c : char) : bool := in_range 97 122 c.
Definition ascii_alnum (c : char) : bool :=
  ascii_lower c || ascii_upper c || ascii_digit c.

(** [str.lower] on one character.  The script lower-cases only words that
    survived the filter "[^a-zA-Z0-9\s]", so only the ASCII case mapping
    is ever exercised (see [fallback_words_alnum] below). *)
Definition lower_char (c : char) : char :=
  if ascii_upper c then c + 32 else c.

Definition lower (s : str) : str := map lower_char s.

Fixpoint take_while (p : char -> bool) (s : str) : str :=
  match s with
  | c :: s' => if p c then c :: take_while p s' else []
  | [] => []
  end.

Fixpoint drop_while (p : char -> bool) (s : str) : str :=
  match s with
  | c :: s' => if p c then drop_while p s' else s
  | [] => []
  end.

(** [s.lstrip()], [s.rstrip()], [s.strip()] and [s.rstrip(chars)] for a
    one-character [chars]. *)
Definition lstrip_by (p : char -> bool) (s : str) : str := drop_while p s.
Definition rstrip_by (p : char -> bool) (s : str) : str :=
  rev (drop_while p (rev s)).
Definition strip (s : str) : str := rstrip_by isspace (lstrip_by isspace s).
Definition rstrip_char (a : char) (s : str) : str := rstrip_by (is_char a) s.

(** [s.replace(old, new)] for a one-character [old]. *)
Definition replace (old : char) (new : str) (s : str) : str :=
  flat_map (fun c => if is_char old c then new else [c]) s.

(** [s.split()]: maximal runs of non-white-space characters.  [w] is the
    word being read. *)
Fixpoint split_from (w : str) (s : str) : list str :=
  match s with
  | [] => match w with [] => [] | _ => [w] end
  | c :: s' =>
      if isspace c
      then match w with [] => split_from [] s' | _ => w :: split_from [] s' end
      else split_from (w ++ [c]) s'
  end.

Definition split (s : str) : list str := split_from [] s.

(** [sep.join(words)]. *)
Fixpoint join (sep : str) (words : list str) : str :=
  match words with
  | [] => []
  | [w] => w
  | w :: ws => w ++ sep ++ join sep ws
  end.

End Text.

(* ================================================================== *)
(** ** The fragment of [re] used by the script *)
(* ================================================================== *)

Module Re.
Import Text.

(** Patterns: the empty pattern, one character of a class, a greedy
    repetition of a class, sequence and ordered alternation.  Every
    repetition in the script is over a single character class. *)
Inductive regex : Type :=
| Eps
| One (p : char -> bool)
| Star (p : char -> bool)
| Cat (r1 r2 : regex)
| Alt (r1 r2 : regex).

Definition Plus (p : char -> bool) : regex := Cat (One p) (Star p).

Definition Lit (s : string) : regex :=
  fold_right (fun c r => Cat (One (is_char c)) r) Eps (lit s).

(** Greedy repetition with backtracking: take as many characters as
    possible, give them back one at a time while the continuation fails. *)
Fixpoint star_k (p : char -> bool) (k : str -> option str) (s : str)
  : option str :=
  match s with
  | c :: s' =>
      if p c
      then match star_k p k s' with Some r => Some r | None => k s end
      else k s
  | [] => k s
  end.

(** Backtracking matcher in continuation-passing style.  [exec r s k]
    matches [r] at the head of [s] and hands the rest of the subject to
    [k]; alternatives are tried left to right. *)
Fixpoint exec (r : regex) (s : str) (k : str -> option str) : option str :=
  match r with
  | Eps => k s
  | One p =>
      match s with
      | c :: s' => if p c then k s' else None
      | [] => None
      end
  | Star p => star_k p k s
  | Cat r1 r2 => exec r1 s (fun s' => exec r2 s' k)
  | Alt r1 r2 =>
      match exec r1 s k with
      | Some x => Some x
      | None => exec r2 s k
      end
  end.

(** Number of characters matched at the head of [s], if any. *)
Definition match_len (r : regex) (s : str) : option nat :=
  match exec r s Some with
  | Some rest => Some (length s - length rest)
  | None => None
  end.

(** [re.match(r, s)]: [None], or [Some (m.group(0))].  A leading [^] in
    the pattern is redundant under [re.match]. *)
Definition re_match (r : regex) (s : str) : option str :=
  match match_len r s with
  | Some n => Some (firstn n s)
  | None => None
  end.

(** [re.sub(r, '', s)]: delete the leftmost non-overlapping matches.
    [skip] counts the characters of the current match still to delete.
    An empty match deletes nothing. *)
Fixpoint sub_from (r : regex) (skip : nat) (s : str) : str :=
  match s with
  | [] => []
  | c :: s' =>
      match skip with
      | S n => sub_from r n s'
      | O =>
          match match_len r s with
          | Some (S n) => sub_from r n s'
          | _ => c :: sub_from r 0 s'
          end
      end
  end.

Definition re_sub_delete (r : regex) (s : str) : str := sub_from r 0 s.

End Re.

(* ================================================================== *)
(** ** [_make_anchor] and the table-of-contents anchor rule *)
(* ================================================================== *)

Module Anchor.
Import Text Re.

Definition digit_or_dot (c : char) : bool := isdecimal c || is_char c_dot c.
Definition dot_or_colon (c : char) : bool := is_char c_dot c || is_char c_colon c.
Definition not_gt (c : char) : bool := negb (is_char c_gt c).
Definition not_alnum_space (c : char) : bool := negb (ascii_alnum c || isspace c).

(** The pattern "<[^>]+>". *)
Definition re_tag : regex :=
  Cat (One (is_char c_lt)) (Cat (Plus not_gt) (One (is_char c_gt))).

(** The pattern "\d+\.[\d.]*\s*" (first alternative). *)
Definition re_numeral : regex :=
  Cat (Plus isdecimal)
      (Cat (One (is_char c_dot)) (Cat (Star digit_or_dot) (Star isspace))).

(** The pattern "Appendix\s+[A-Z][\.:]\s*" (second alternative). *)
Definition re_appendix : regex :=
  Cat (Lit "Appendix")
      (Cat (Plus isspace)
           (Cat (One ascii_upper) (Cat (One dot_or_colon) (Star isspace)))).

(** The pattern of [re.match]: the two alternatives above, in this order,
    in one group anchored by "^". *)
Definition re_numbering : regex := Alt re_numeral re_appendix.

(** The pattern "[^a-zA-Z0-9\s]". *)
Definition re_junk : regex := One not_alnum_space.

Definition strip_tags (text : str) : str := re_sub_delete re_tag text.

Definition sec_ : str := lit "sec_".

(** The fallback branch: first four words, lower-cased, joined by [_]. *)
Definition fallback_words (clean : str) : list str :=
  firstn 4 (split (re_sub_delete re_junk clean)).

(** [_make_anchor(text)] *)
Definition _make_anchor (text : str) : str :=
  let clean := strip_tags text in
  match re_match re_numbering clean with
  | Some group0 =>
      let anchor :=
        replace c_colon []
          (replace c_space [c_underscore]
             (replace c_dot [c_underscore]
                (rstrip_char c_dot (strip group0)))) in
      sec_ ++ anchor
  | None =>
      sec_ ++ join [c_underscore] (map lower (fallback_words clean))
  end.

(** *** Vocabulary of the specification *)

Definition starts_with (p : char -> bool) (s : str) : bool :=
  match s with
  | c :: _ => p c
  | [] => false
  end.

(** [numbering_token tok s]: the text [s] begins with the numbering token
    [tok].  A token is a dotted numeral (digits, a dot, then any further
    digits and dots, taken as far as they go) or the word [Appendix],
    white space, a capital letter and a dot or colon. *)
Inductive numbering_token : str -> str -> Prop :=
| token_numeral (ds more rest : str) :
    ds <> [] ->
    forallb isdecimal ds = true ->
    forallb digit_or_dot more = true ->
    starts_with digit_or_dot rest = false ->
    numbering_token (ds ++ c_dot :: more) (ds ++ c_dot :: more ++ rest)
| token_appendix (ws : str) (letter mark : char) (rest : str) :
    ws <> [] ->
    forallb isspace ws = true ->
    ascii_upper letter = true ->
    dot_or_colon mark = true ->
    numbering_token (lit "Appendix" ++ ws ++ [letter; mark])
                    (lit "Appendix" ++ ws ++ letter :: mark :: rest).

(** Token normalisation in the words of the specification: trim the
    trailing dots, turn the remaining dots and the spaces into
    underscores, drop the colons. *)
Definition normalize_char (c : char) : str :=
  if is_char c_dot c || is_char c_space c then [c_underscore]
  else if is_char c_colon c then []
  else [c].

Definition normalize_token (tok : str) : str :=
  flat_map normalize_char (rstrip_char c_dot tok).

(** The fallback in the words of the specification: keep the ASCII
    letters, the digits 0-9 and the white space, split into words, keep
    the first four, lower-case each, join with underscores. *)
Definition alnum_or_space (c : char) : bool := ascii_alnum c || isspace c.

Definition word_anchor (clean : str) : str :=
  join [c_underscore]
       (map lower (firstn 4 (split (filter alnum_or_space clean)))).

(** The characters an anchor name is made of: ASCII letters, the digits
    0-9 and the underscore. *)
Definition anchor_char (c : char) : bool :=
  ascii_alnum c || is_char c_underscore c.

(** [strip_prefix p s]: [s] without its prefix [p], if it has it. *)
Fixpoint strip_prefix (p s : str) : option str :=
  match p, s with
  | [], _ => Some s
  | a :: p', b :: s' => if is_char a b then strip_prefix p' s' else None
  | _ :: _, [] => None
  end.

End Anchor.

(* ================================================================== *)
(** ** The inline markup helpers *)
(* ================================================================== *)

Module Markup.
Import Text.

Definition c_amp : char := 38%N.

(** [esc(text)]: the three [replace] calls, the ampersand first. *)
Definition esc (text : str) : str :=
  replace c_gt (lit "&gt;")
    (replace c_lt (lit "&lt;")
       (replace c_amp (lit "&amp;") text)).

(** [b(text)] and [i(text)]. *)
Definition b (text : str) : str := lit "<b>" ++ text ++ lit "</b>".
Definition i (text : str) : str := lit "<i>" ++ text ++ lit "</i>".

(** [mono(text)]: the opening tag is
    [<font face=JetBrainsMono size=9>], each attribute value in double
    quotes. *)
Definition mono_open : str :=
  lit "<font face=" ++ [c_quote] ++ lit "JetBrainsMono" ++ [c_quote]
  ++ lit " size=" ++ [c_quote] ++ lit "9" ++ [c_quote] ++ lit ">".

Definition mono (text : str) : str :=
  mono_open ++ esc text ++ lit "</font>".

(** What [esc] makes of one character. *)
Definition esc_char (c : char) : str :=
  if is_char c_amp c then lit "&amp;"
  else if is_char c_lt c then lit "&lt;"
  else if is_char c_gt c then lit "&gt;"
  else [c].

(** Sets of characters, as tests on a string. *)
Definition has_char (a : char) (s : str) : bool := existsb (is_char a) s.

End Markup.

(* ================================================================== *)
(** ** The table of contents *)
(* ================================================================== *)

Module Toc.
Import Text Re Anchor.

(** One tuple of [toc_entries]: [(num, title, is_sub)]. *)
Definition TOCEntry : Type := str * str * bool.

(** Equality of two strings, as a test. *)
Fixpoint str_eqb (a b : str) : bool :=
  match a, b with
  | [], [] => true
  | x :: a', y :: b' => (x =? y)%N && str_eqb a' b'
  | _, _ => false
  end.

(** The anchor computed in the body of the loop
    [for num, title, is_sub in toc_entries]:
    [num_clean = num.rstrip('.')],
    [anchor = 'sec_' + num_clean.replace('.', '_')], overridden by
    [f'sec_Appendix_{num_clean}'] when [num_clean in ('A', 'B')]. *)
Definition toc_anchor (num : str) : str :=
  let num_clean := rstrip_char c_dot num in
  let anchor := sec_ ++ replace c_dot [c_underscore] num_clean in
  if str_eqb num_clean (lit "A") || str_eqb num_clean (lit "B")
  then lit "sec_Appendix_" ++ num_clean
  else anchor.

Definition entry_anchor (e : TOCEntry) : str :=
  let '(num, _, _) := e in toc_anchor num.

Definition toc_entries : list TOCEntry :=
  [ (lit "1.", lit "Abstract", false);
    (lit "2.", lit "Introduction", false);
    (lit "2.1", lit "The Quantum Threat", true);
    (lit "2.2", lit "Why FROST and MuSig2 Die Under Quantum", true);
    (lit "2.3", lit "What is ML-DSA?", true);
    (lit "2.4", lit "The Fundamental Challenge", true);
    (lit "2.5", lit "PERMAFROST: The Solution", true);
    (lit "3.", lit "Account-Level Invisible Multisig", false);
    (lit "3.1", lit "Your Account IS the Multisig", true);
    (lit "3.2", lit "On-Chain Indistinguishability", true);
    (lit "3.3", lit "Comparison: Smart Contract vs Account-Level", true);
    (lit "3.4", lit "OPNet Integration", true);
    (lit "4.", lit "Comparison with Existing Approaches", false);
    (lit "4.1", lit "vs MuSig2", true);
    (lit "4.2", lit "vs FROST", true);
    (lit "4.3", lit "vs Smart Contract Multisig", true);
    (lit "4.4", lit "Feature Matrix", true);
    (lit "5.", lit "Mathematical Foundations", false);
    (lit "5.1", lit "The Polynomial Ring", true);
    (lit "5.2", lit "Number Theoretic Transform", true);
    (lit "5.3", lit "Modular Arithmetic", true);
    (lit "5.4", lit "Decomposition Functions", true);
    (lit "5.5", lit "Sampling Functions", true);
    (lit "6.", lit "ML-DSA (FIPS 204) Background", false);
    (lit "6.1", lit "Parameters", true);
    (lit "6.2", lit "Key Generation", true);
    (lit "6.3", lit "Signing Algorithm", true);
    (lit "6.4", lit "Verification", true);
    (lit "6.5", lit "Why Threshold is Hard", true);
    (lit "7.", lit "Threshold Construction Overview", false);
    (lit "7.1", lit "Hyperball Masking", true);
    (lit "7.2", lit "Additive Secret Sharing", true);
    (lit "7.3", lit "Combinatorial Approach", true);
    (lit "8.", lit "Key Generation Internals", false);
    (lit "8.1", lit "How Shares Are Constructed", true);
    (lit "8.2", lit "Gosper's Hack for Subset Enumeration", true);
    (lit "8.3", lit "deriveUniformLeqEta", true);
    (lit "9.", lit "Dealerless DKG: The PERMAFROST Key Ceremony", false);
    (lit "9.1", lit "Design Decisions", true);
    (lit "9.2", lit "Hard Invariants", true);
    (lit "9.3", lit "Prerequisites", true);
    (lit "9.4", lit "The Four Phases", true);
    (lit "9.7", lit "Complaint and Abort Protocol", true);
    (lit "9.8", lit "Security Proofs", true);
    (lit "10.", lit "Hyperball Sampling", false);
    (lit "10.1", lit "The sampleHyperball Algorithm", true);
    (lit "10.2", lit "Box-Muller Transform", true);
    (lit "10.3", lit "BigInt Precision", true);
    (lit "10.4", lit "The C1 Fix", true);
    (lit "11.", lit "Share Recovery", false);
    (lit "12.", lit "The 3-Round Distributed Signing Protocol", false);
    (lit "12.1", lit "Round 1: Commitment", true);
    (lit "12.2", lit "Round 2: Reveal", true);
    (lit "12.3", lit "Round 3: Partial Response", true);
    (lit "12.4", lit "The H1 Timing Fix", true);
    (lit "13.", lit "Combine: Signature Finalization", false);
    (lit "14.", lit "Polynomial Packing: 23-Bit Encoding", false);
    (lit "15.", lit "Parameter Tables", false);
    (lit "16.", lit "Security Analysis and Hardening", false);
    (lit "17.", lit "Frontend Integration: Communication Layer", false);
    (lit "18.", lit "Float64 Precision Analysis", false);
    (lit "19.", lit "Architecture and Implementation", false);
    (lit "20.", lit "API Reference", false);
    (lit "21.", lit "Known Limitations", false);
    (lit "A.", lit "Notation Reference", false);
    (lit "B.", lit "Test Coverage", false) ].

Definition script_headings : list (nat * str) :=
  [ (1, lit "2. Introduction");
    (2, lit "2.1 The Quantum Threat to Threshold Signatures");
    (2, lit "2.2 Why FROST and MuSig2 Die Under Quantum");
    (2, lit "2.3 What is ML-DSA (FIPS 204)?");
    (2, lit "2.4 The Fundamental Challenge: Non-Linearity");
    (2, lit "2.5 PERMAFROST: The Complete Solution");
    (1, lit "3. Account-Level Invisible Multisig");
    (2, lit "3.1 Your Account IS the Multisig");
    (2, lit "3.2 On-Chain Indistinguishability");
    (2, lit "3.3 Comparison: Smart Contract vs Account-Level");
    (2, lit "3.4 OPNet Integration");
    (1, lit "4. Comparison with Existing Approaches");
    (2, lit "4.1 vs MuSig2 (Bitcoin Schnorr)");
    (2, lit "4.2 vs FROST (Schnorr Threshold)");
    (2, lit "4.3 vs Smart Contract Multisig");
    (2, lit "4.4 Feature Matrix");
    (1, lit "5. Mathematical Foundations");
    (2, lit "5.1 The Polynomial Ring R_q");
    (2, lit "5.2 Number Theoretic Transform (NTT)");
    (2, lit "5.3 Modular Arithmetic");
    (2, lit "5.4 Decomposition Functions");
    (2, lit "5.5 Sampling Functions");
    (1, lit "6. ML-DSA (FIPS 204) Background");
    (2, lit "6.1 Standard Parameters");
    (2, lit "6.2 Key Generation");
    (2, lit "6.3 Signing Algorithm (Rejection Sampling Loop)");
    (2, lit "6.4 Verification");
    (2, lit "6.5 Why Threshold is Hard for ML-DSA");
    (1, lit "7. Threshold Construction Overview");
    (2, lit "7.1 High-Level Protocol Flow");
    (2, lit "7.2 The Hyperball Masking Breakthrough");
    (2, lit "7.3 Additive Secret Sharing over Bitmasks");
    (1, lit "8. Key Generation Internals");
    (2, lit "8.1 How Shares Are Constructed (3-of-5 Example)");
    (2, lit "8.2 Gosper's Hack for Subset Enumeration");
    (2, lit "8.3 deriveUniformLeqEta");
    (1, lit "9. Dealerless DKG: The PERMAFROST Key Ceremony");
    (2, lit "9.1 Design Decisions: Per-Bitmask Seed Derivation");
    (2, lit "9.2 Hard Invariants");
    (2, lit "9.3 Prerequisites");
    (2, lit "9.4 The Four Phases");
    (2, lit "9.5 Mask Cancellation: Why It Works");
    (2, lit "9.6 Complaint and Abort Protocol");
    (2, lit "9.7 Message Complexity");
    (2, lit "9.8 Security Proofs");
    (3, lit "Theorem 1: Correctness");
    (3, lit "Theorem 2: Structural Secrecy");
    (3, lit "Theorem 3: Forced Randomness");
    (3, lit "Theorem 4: Public-Key Transcript Equivalence");
    (3, lit "Theorem 5: Abort Safety and Session Isolation");
    (3, lit "Theorem 6: LeqEta Bias Non-Exploitability");
    (1, lit "10. Hyperball Sampling");
    (2, lit "10.1 Motivation");
    (2, lit "10.2 The sampleHyperball Algorithm");
    (2, lit "10.3 Box-Muller Transform");
    (2, lit "10.4 BigInt Precision for Uniform Floats");
    (2, lit "10.5 The C1 Fix: Avoiding log(0)");
    (1, lit "11. Share Recovery");
    (2, lit "11.1 Sharing Patterns");
    (2, lit "11.2 Permutation-Based Bitmask Translation");
    (2, lit "11.3 Base Case: T = N");
    (2, lit "11.4 Share Accumulation");
    (1, lit "12. The 3-Round Distributed Signing Protocol");
    (2, lit "12.1 Round 1: Commitment");
    (2, lit "12.2 Round 2: Reveal");
    (2, lit "12.3 Round 3: Partial Response");
    (2, lit "12.4 The H1 Timing Fix");
    (1, lit "13. Combine: Signature Finalization");
    (2, lit "13.1 The Combine Algorithm");
    (2, lit "13.2 Why This Produces Valid FIPS 204 Signatures");
    (1, lit "14. Polynomial Packing: 23-Bit Encoding");
    (2, lit "14.1 Encoding: polyPackW");
    (2, lit "14.2 Decoding: polyUnpackW (with M7 Validation Fix)");
    (2, lit "14.3 Bit Safety Analysis");
    (1, lit "15. Parameter Tables");
    (2, lit "15.1 ML-DSA-44 (K=4, L=4, NIST Level 2)");
    (2, lit "15.2 ML-DSA-65 (K=6, L=5, NIST Level 3)");
    (2, lit "15.3 ML-DSA-87 (K=8, L=7, NIST Level 5)");
    (2, lit "15.4 Why N " ++ [8804%N] ++ lit " 6");
    (1, lit "16. Security Analysis and Hardening");
    (2, lit "16.1 C1 (Critical): Box-Muller NaN/Infinity from log(0)");
    (2, lit "16.2 C8 (Critical): No Input Validation");
    (2, lit "16.3 H1 (High): Timing Leak from Rejection Pattern");
    (2, lit "16.4 H6 (High): No Zeroization of Secret Material");
    (2, lit "16.5 M7 (Medium): No Coefficient Validation on Unpack");
    (2, lit "16.6 Additional Hardening");
    (1, lit "17. Frontend Integration: Communication Layer");
    (2, lit "17.1 The Communication Problem");
    (2, lit "17.2 Option 1: WebRTC DataChannels");
    (2, lit "17.3 Recommended: Encrypted Mailbox over WebSocket");
    (2, lit "17.4 E2E Encryption: Hybrid X25519 + ML-KEM (Dual System)");
    (1, lit "18. Float64 Precision Analysis");
    (2, lit "18.1 Where Float64 is Used");
    (2, lit "18.2 Ring Arithmetic: Always Int32");
    (2, lit "18.3 Platform Dependence of Transcendental Functions");
    (2, lit "18.4 fvecRound Precision");
    (1, lit "19. Architecture and Implementation");
    (2, lit "19.1 Module Structure");
    (2, lit "19.2 Class Design: ThresholdMLDSA");
    (2, lit "19.3 State Management");
    (2, lit "19.4 FVec Layout");
    (1, lit "20. API Reference");
    (2, lit "20.1 ThresholdMLDSA.create(securityLevel, T, N)");
    (2, lit "20.2 keygen(seed?)");
    (2, lit "20.3 round1(share, opts?)");
    (2, lit "20.4 round2(share, activePartyIds, msg, hashes, state, opts?)");
    (2, lit "20.5 round3(share, commitments, state1, state2)");
    (2, lit "20.6 combine(publicKey, msg, commitments, responses, opts?)");
    (2, lit "20.7 DKG Methods");
    (2, lit "20.8 Byte Lengths");
    (1, lit "21. Known Limitations");
    (2, lit "21.1 No Side-Channel Protection in JavaScript");
    (2, lit "21.2 Float64 Platform Dependence");
    (2, lit "21.3 N " ++ [8804%N] ++ lit " 6 Cap");
    (2, lit "21.4 Identifiable Aborts (Implicit Only)");
    (2, lit "21.5 DKG Limitations");
    (2, lit "21.6 Unaudited Implementation");
    (1, lit "Appendix A: Notation Reference");
    (1, lit "Appendix B: Test Coverage");
    (2, lit "Threshold Tests (59 tests)");
    (2, lit "Dealerless DKG Tests (55 tests)");
    (2, lit "Standard ML-DSA Tests (21 tests)");
    (2, lit "DKG Verification Points") ].

(** The first heading is laid out by hand:
    [story.append(g.Paragraph('<a name=sec_1/>1. Abstract', S['h1']))]
    (with the anchor name in double quotes). *)
Definition abstract_heading : str := lit "1. Abstract".
Definition abstract_anchor : str := lit "sec_1".

(** Every heading text of the body, and every anchor name the body
    carries: the hand-written one and those [section_heading],
    [sub_heading] and [sub_sub_heading] derive. *)
Definition body_headings : list str :=
  abstract_heading :: map snd script_headings.

Definition emitted_anchors : list str :=
  abstract_anchor :: map (fun h => _make_anchor (snd h)) script_headings.

Fixpoint is_prefix (p s : str) : bool :=
  match p, s with
  | [], _ => true
  | a :: p', b :: s' => (a =? b)%N && is_prefix p' s'
  | _ :: _, [] => false
  end.

(** The label a heading of the body opens with when it is the heading of
    a table-of-contents entry: the entry's number and a space, or
    [Appendix], the letter and a colon for the two appendix entries. *)
Definition entry_label (e : TOCEntry) : str :=
  let '(num, _, _) := e in
  let num_clean := rstrip_char c_dot num in
  if str_eqb num_clean (lit "A") || str_eqb num_clean (lit "B")
  then lit "Appendix " ++ num_clean ++ [c_colon]
  else num ++ [c_space].

Definition heading_matches (e : TOCEntry) (heading : str) : bool :=
  is_prefix (entry_label e) heading.

(** The check behind the agreement of the two anchor computations, as a
    test over the static data: the anchor of every entry is carried by
    the body, and it is the anchor of every heading that opens with the
    entry's label. *)
Definition entry_agrees (e : TOCEntry) : bool :=
  existsb (str_eqb (entry_anchor e)) emitted_anchors
  && forallb (fun h => implb (heading_matches e h)
                             (str_eqb (entry_anchor e) (_make_anchor h)))
             body_headings.

Definition entry_has_heading (e : TOCEntry) : bool :=
  existsb (heading_matches e) body_headings.

(** No string occurs twice in a list, as a test. *)
Fixpoint all_distinct (l : list str) : bool :=
  match l with
  | [] => true
  | a :: l' => negb (existsb (str_eqb a) l') && all_distinct l'
  end.

End Toc.

(* ================================================================== *)
(** ** The buffered heading system *)
(* ================================================================== *)

Module Flow.
Import Text Re Anchor.

(** Numbers that are only carried along (content width, column
    fractions). *)
Definition number : Type := QArith_base.Q.

(** The keys of the style sheet [S] used by the script. *)
Inductive Style : Type :=
| h1 | h2 | h3 | body_style | body_small_style | ts | te.

Inductive Severity : Type := note | info | warning | critical.

(** The flowables of the external [generator] module the script builds. *)
Inductive Flowable : Type :=
| Paragraph (text : str) (style : Style)
| AccentBar (width : number) (thickness : Z)
| Spacer (width height : Z)
| PageBreak
| CalloutBox (text : str) (severity : Severity) (title : str)
| CodeBlock (text : str) (language : str)
| CardTable (headers : list str) (rows : list (list str))
            (col_widths : list number) (width : number)
            (highlight_cols : option (list Z))
| StepIndicator (index : Z) (title description : str) (is_last : bool)
| KeepTogether (items : list Flowable).

(** The module-level state: [cw] and [story] as returned by
    [g.create_document], and the global [_pending_heading]. *)
Record Script : Type := mkScript {
  cw : number;
  story : list Flowable;
  _pending_heading : list Flowable
}.

Definition story_append (f : Flowable) (st : Script) : Script :=
  mkScript (cw st) (story st ++ [f]) (_pending_heading st).

Definition pending_extend (fs : list Flowable) (st : Script) : Script :=
  mkScript (cw st) (story st) (_pending_heading st ++ fs).

(** [for item in _pending_heading: story.append(item)] *)
Definition append_each (items : list Flowable) (st : Script) : Script :=
  fold_left (fun acc item => story_append item acc) items st.

Definition _flush_heading (st : Script) : Script :=
  match _pending_heading st with
  | [] => st
  | _ :: _ =>
      let st1 := append_each (_pending_heading st) st in
      mkScript (cw st1) (story st1) []
  end.

Definition _flush_heading_with (content_flowable : Flowable) (st : Script)
  : Script :=
  match _pending_heading st with
  | _ :: _ =>
      let items := _pending_heading st ++ [content_flowable] in
      let st1 := story_append (KeepTogether items) st in
      mkScript (cw st1) (story st1) []
  | [] => story_append content_flowable st
  end.

(** [f'<a name="{anchor}"/>{text}'] *)
Definition anchored (anchor text : str) : str :=
  lit "<a name=" ++ [c_quote] ++ anchor ++ [c_quote] ++ lit "/>" ++ text.

Definition section_heading (text : str) (st : Script) : Script :=
  let st := _flush_heading st in
  let anchor := _make_anchor text in
  let st := story_append PageBreak st in
  pending_extend
    [ Paragraph (anchored anchor text) h1;
      AccentBar (cw st) 1;
      Spacer 1 12 ] st.

Definition sub_heading (text : str) (st : Script) : Script :=
  let st := _flush_heading st in
  let anchor := _make_anchor text in
  pending_extend
    [ Spacer 1 16;
      Paragraph (anchored anchor text) h2;
      Spacer 1 6 ] st.

Definition sub_sub_heading (text : str) (st : Script) : Script :=
  let st := _flush_heading st in
  let anchor := _make_anchor text in
  pending_extend
    [ Spacer 1 12;
      Paragraph (anchored anchor text) h3;
      Spacer 1 4 ] st.

Definition body (text : str) : Script -> Script :=
  _flush_heading_with (Paragraph text body_style).

Definition body_small (text : str) : Script -> Script :=
  _flush_heading_with (Paragraph text body_small_style).

Definition spacer (h : Z) (st : Script) : Script :=
  let st := _flush_heading st in
  story_append (Spacer 1 h) st.

Definition analogy (text : str) : Script -> Script :=
  _flush_heading_with (CalloutBox text note (lit "ANALOGY")).

Definition info_box (text title : str) : Script -> Script :=
  _flush_heading_with (CalloutBox text info title).

Definition warning_box (text title : str) : Script -> Script :=
  _flush_heading_with (CalloutBox text warning title).

Definition critical_box (text title : str) : Script -> Script :=
  _flush_heading_with (CalloutBox text critical title).

Definition code (text lang : str) : Script -> Script :=
  _flush_heading_with (CodeBlock text lang).

Definition table (headers : list str) (rows : list (list str))
  (col_widths : list number) (highlight_cols : option (list Z))
  (st : Script) : Script :=
  _flush_heading_with
    (CardTable headers rows col_widths (cw st) highlight_cols) st.

(** The state right after [g.create_document]: nothing buffered. *)
Definition create_document (width : number) : Script := mkScript width [] [].

(** The calls a document body is made of.  [call_step] is the direct
    [_flush_heading_with(g.StepIndicator(...))] of sections 9.4 and 12. *)
Inductive Call : Type :=
| call_section_heading (text : str)
| call_sub_heading (text : str)
| call_sub_sub_heading (text : str)
| call_body (text : str)
| call_body_small (text : str)
| call_spacer (h : Z)
| call_analogy (text : str)
| call_info_box (text title : str)
| call_warning_box (text title : str)
| call_critical_box (text title : str)
| call_code (text lang : str)
| call_table (headers : list str) (rows : list (list str))
             (col_widths : list number) (highlight_cols : option (list Z))
| call_step (index : Z) (title description : str) (is_last : bool).

Definition step (c : Call) : Script -> Script :=
  match c with
  | call_section_heading text => section_heading text
  | call_sub_heading text => sub_heading text
  | call_sub_sub_heading text => sub_sub_heading text
  | call_body text => body text
  | call_body_small text => body_small text
  | call_spacer h => spacer h
  | call_analogy text => analogy text
  | call_info_box text title => info_box text title
  | call_warning_box text title => warning_box text title
  | call_critical_box text title => critical_box text title
  | call_code text lang => code text lang
  | call_table hd rows ws hl => table hd rows ws hl
  | call_step i t d l => _flush_heading_with (StepIndicator i t d l)
  end.

(** A sequence of calls, executed in order. *)
Definition run (calls : list Call) (st : Script) : Script :=
  fold_left (fun acc c => step c acc) calls st.

(** The end of the script: [_flush_heading()], after which
    [g.build_document(doc, story)] consumes [story]. *)
Definition finalize (st : Script) : Script := _flush_heading st.

(** *** Vocabulary of the specification *)

(** [heading(level, text)]: levels 1, 2 and 3 are [section_heading],
    [sub_heading] and [sub_sub_heading]. *)
Inductive Level : Type := L1 | L2 | L3.

Definition heading (level : Level) (text : str) : Script -> Script :=
  match level with
  | L1 => section_heading text
  | L2 => sub_heading text
  | L3 => sub_sub_heading text
  end.

(** The anchored title block of a heading. *)
Definition title_block (level : Level) (text : str) : Flowable :=
  Paragraph (anchored (_make_anchor text) text)
            (match level with L1 => h1 | L2 => h2 | L3 => h3 end).

(** The blocks a heading call sends straight to the stream, and the
    blocks it leaves in the buffer. *)
Definition direct_blocks (level : Level) : list Flowable :=
  match level with L1 => [PageBreak] | _ => [] end.

Definition buffered_blocks (width : number) (level : Level) (text : str)
  : list Flowable :=
  match level with
  | L1 => [title_block L1 text; AccentBar width 1; Spacer 1 12]
  | L2 => [Spacer 1 16; title_block L2 text; Spacer 1 6]
  | L3 => [Spacer 1 12; title_block L3 text; Spacer 1 4]
  end.

(** The decoration set of a heading as the specification lists it:
    page break, anchored title, divider, spacer for level 1; spacer,
    anchored title, smaller spacer for levels 2 and 3. *)
Definition decorations (width : number) (level : Level) (text : str)
  : list Flowable :=
  direct_blocks level ++ buffered_blocks width level text.

(** The buffer is empty or holds the buffered blocks of one heading. *)
Definition single_occupancy (st : Script) : Prop :=
  _pending_heading st = [] \/
  exists level text,
    _pending_heading st = buffered_blocks (cw st) level text.

(** The block a content call builds. *)
Definition content_block (width : number) (c : Call) : option Flowable :=
  match c with
  | call_body text => Some (Paragraph text body_style)
  | call_body_small text => Some (Paragraph text body_small_style)
  | call_analogy text => Some (CalloutBox text note (lit "ANALOGY"))
  | call_info_box text title => Some (CalloutBox text info title)
  | call_warning_box text title => Some (CalloutBox text warning title)
  | call_critical_box text title => Some (CalloutBox text critical title)
  | call_code text lang => Some (CodeBlock text lang)
  | call_table hd rows ws hl => Some (CardTable hd rows ws width hl)
  | call_step i t d l => Some (StepIndicator i t d l)
  | _ => None
  end.

(** The blocks one call produces, in the order it produces them. *)
Definition produced_by (width : number) (c : Call) : list Flowable :=
  match c with
  | call_section_heading text => decorations width L1 text
  | call_sub_heading text => decorations width L2 text
  | call_sub_sub_heading text => decorations width L3 text
  | call_spacer h => [Spacer 1 h]
  | _ => match content_block width c with Some f => [f] | None => [] end
  end.

Definition produced (width : number) (calls : list Call) : list Flowable :=
  flat_map (produced_by width) calls.

(** The blocks of a stream element: the members of a keep-together
    group, or the element itself. *)
Definition members (f : Flowable) : list Flowable :=
  match f with
  | KeepTogether items => items
  | _ => [f]
  end.

Definition blocks (stream : list Flowable) : list Flowable :=
  flat_map members stream.

Definition is_group (f : Flowable) : bool :=
  match f with KeepTogether _ => true | _ => false end.

(** A content width for examples. *)
Definition sample_width : number := QArith_base.Qmake 451 1.

(** Every call is a heading, a spacer, or a content call that hands one
    block to [_flush_heading_with]. *)
Inductive call_view (st : Script) : Call -> Prop :=
| view_heading level text c :
    step c st = heading level text st ->
    produced_by (cw st) c = decorations (cw st) level text ->
    call_view st c
| view_spacer h :
    call_view st (call_spacer h)
| view_content c f :
    content_block (cw st) c = Some f ->
    step c st = _flush_heading_with f st ->
    produced_by (cw st) c = [f] ->
    is_group f = false ->
    call_view st c.

(** The blocks held by the stream and by the buffer together. *)
Definition held (st : Script) : list Flowable :=
  blocks (story st) ++ _pending_heading st.

(** [heading_with_content(heading_style, heading_text, body_text,
    body_style=None)]: a group of two paragraphs; the body style
    defaults to [S['body']]. *)
Definition heading_with_content (heading_style : Style)
  (heading_text body_text : str) (body_style_arg : option Style)
  : Flowable :=
  let bs := match body_style_arg with Some s => s | None => body_style end in
  KeepTogether [Paragraph heading_text heading_style; Paragraph body_text bs].

(** The three kinds of calls. *)
Definition is_heading_call (c : Call) : bool :=
  match c with
  | call_section_heading _ | call_sub_heading _ | call_sub_sub_heading _ =>
      true
  | _ => false
  end.

Definition is_spacer_call (c : Call) : bool :=
  match c with call_spacer _ => true | _ => false end.

(** The number of content calls of a sequence that come right after a
    heading call; [pending] tells whether a heading is waiting when the
    sequence starts. *)
Fixpoint bonds (pending : bool) (calls : list Call) : nat :=
  match calls with
  | [] => 0
  | c :: calls' =>
      if is_heading_call c then bonds true calls'
      else if is_spacer_call c then bonds false calls'
      else (if pending then 1 else 0) + bonds false calls'
  end.

Definition count_groups (stream : list Flowable) : nat :=
  length (filter is_group stream).

Definition is_nonempty (l : list Flowable) : bool :=
  match l with [] => false | _ :: _ => true end.

(** The title block a call leaves in the output, if it is a heading
    call. *)
Definition title_of_call (c : Call) : list Flowable :=
  match c with
  | call_section_heading text => [title_block L1 text]
  | call_sub_heading text => [title_block L2 text]
  | call_sub_sub_heading text => [title_block L3 text]
  | _ => []
  end.

(** The paragraphs in one of the three heading styles. *)
Definition is_title (f : Flowable) : bool :=
  match f with
  | Paragraph _ h1 | Paragraph _ h2 | Paragraph _ h3 => true
  | _ => false
  end.

(** A stream element is well formed when it is a single block or a group
    made of the buffered blocks of one heading and one block that is not
    itself a group. *)
Definition well_formed (width : number) (f : Flowable) : Prop :=
  match f with
  | KeepTogether items =>
      exists level text P,
        items = buffered_blocks width level text ++ [P]
        /\ is_group P = false
  | _ => True
  end.

End Flow.

(* ================================================================== *)
(** ** The table-of-contents loop *)
(* ================================================================== *)

Module TocLoop.
Import Text Re Anchor Toc Flow.

(** One hyperlink of a row: [<a href=#anchor color=colour>label</a>],
    both attribute values in double quotes. *)
Definition link (anchor colour label : str) : str :=
  lit "<a href=" ++ [c_quote] ++ lit "#" ++ anchor ++ [c_quote]
  ++ lit " color=" ++ [c_quote] ++ colour ++ [c_quote] ++ lit ">"
  ++ label ++ lit "</a>".

(** [link_text] of the loop.  [orange] and [primary] stand for
    [g.Theme.ORANGE.hexval()] and [g.Theme.text_primary().hexval()]. *)
Definition link_text (orange primary : str) (e : TOCEntry) : str :=
  let '(num, title, _) := e in
  let anchor := toc_anchor num in
  link anchor orange num ++ lit "   " ++ link anchor primary title.

End TocLoop.

(* ================================================================== *)
(** * Properties of the text and pattern primitives *)
(* ================================================================== *)

Module TextFacts.
Import Text.

Lemma is_char_true a c : is_char a c = true <-> a = c.
Proof. unfold is_char. apply N.eqb_eq. Qed.

Lemma is_char_refl a : is_char a a = true.
Proof. now apply is_char_true. Qed.

Lemma in_range_spec lo hi c :
  in_range lo hi c = true <-> (lo <= c <= hi)%N.
Proof.
  unfold in_range. rewrite andb_true_iff, !N.leb_le. tauto.
Qed.

Lemma isspace_points c : isspace c = true -> In c space_points.
Proof.
  unfold isspace. rewrite !orb_true_iff, !in_range_spec, !is_char_true.
  unfold space_points. cbn [In]. lia.
Qed.

(** A property of every white-space character follows from a check of
    the listed points. *)
Lemma isspace_elim (P : char -> bool) c :
  forallb P space_points = true -> isspace c = true -> P c = true.
Proof.
  intros HP Hc. rewrite forallb_forall in HP.
  now apply HP, isspace_points.
Qed.

Lemma decimal_not_space c : isdecimal c = true -> isspace c = false.
Proof.
  intros Hd. destruct (isspace c) eqn:Hs; [|reflexivity].
  apply (isspace_elim (fun c => negb (isdecimal c))) in Hs;
    [|vm_compute; reflexivity].
  now rewrite Hd in Hs.
Qed.

Lemma decimal_not_char a c :
  isdecimal a = false -> isdecimal c = true -> is_char a c = false.
Proof.
  intros Ha Hc. destruct (is_char a c) eqn:E; [|reflexivity].
  apply is_char_true in E. subst. congruence.
Qed.

Lemma space_not_char a c :
  isspace a = false -> isspace c = true -> is_char a c = false.
Proof.
  intros Ha Hc. destruct (is_char a c) eqn:E; [|reflexivity].
  apply is_char_true in E. subst. congruence.
Qed.

Lemma upper_not_space c : ascii_upper c = true -> isspace c = false.
Proof.
  intros Hu. destruct (isspace c) eqn:Hs; [|reflexivity].
  apply (isspace_elim (fun c => negb (ascii_upper c))) in Hs;
    [|vm_compute; reflexivity].
  now rewrite Hu in Hs.
Qed.

(** *** [take_while] and [drop_while] *)

Lemma take_drop p s : take_while p s ++ drop_while p s = s.
Proof.
  induction s as [|c s IH]; simpl; [reflexivity|].
  destruct (p c); simpl; [now rewrite IH | reflexivity].
Qed.

Lemma take_while_all p s : forallb p (take_while p s) = true.
Proof.
  induction s as [|c s IH]; simpl; [reflexivity|].
  destruct (p c) eqn:E; simpl; [now rewrite E | reflexivity].
Qed.

Lemma drop_while_stops p s :
  match drop_while p s with c :: _ => p c | [] => false end = false.
Proof.
  induction s as [|c s IH]; simpl; [reflexivity|].
  destruct (p c) eqn:E; simpl; [exact IH | exact E].
Qed.

Lemma drop_while_app p l r :
  forallb p l = true ->
  match r with c :: _ => p c | [] => false end = false ->
  drop_while p (l ++ r) = r.
Proof.
  intros Hl Hr. induction l as [|c l IH]; simpl in *.
  - destruct r as [|c r]; simpl; [reflexivity | now rewrite Hr].
  - apply andb_true_iff in Hl as [Hc Hl]. rewrite Hc. now apply IH.
Qed.

Lemma take_while_app p l r :
  forallb p l = true ->
  match r with c :: _ => p c | [] => false end = false ->
  take_while p (l ++ r) = l.
Proof.
  intros Hl Hr. induction l as [|c l IH]; simpl in *.
  - destruct r as [|c r]; simpl; [reflexivity | now rewrite Hr].
  - apply andb_true_iff in Hl as [Hc Hl]. rewrite Hc. f_equal. now apply IH.
Qed.

Lemma drop_while_id p s :
  match s with c :: _ => p c | [] => false end = false ->
  drop_while p s = s.
Proof. intros H. apply (drop_while_app p [] s); [reflexivity | exact H]. Qed.

Lemma forallb_rev (p : char -> bool) l :
  forallb p (rev l) = forallb p l.
Proof.
  induction l as [|c l IH]; simpl; [reflexivity|].
  rewrite forallb_app, IH. simpl. rewrite andb_true_r. apply andb_comm.
Qed.

(** Trimming on the right removes a trailing run and nothing else when
    the character in front of the run is kept. *)
Lemma rstrip_by_app p body tail :
  forallb p tail = true ->
  match rev body with c :: _ => p c | [] => false end = false ->
  rstrip_by p (body ++ tail) = body.
Proof.
  intros Ht Hb. unfold rstrip_by. rewrite rev_app_distr.
  rewrite drop_while_app; [apply rev_involutive | | exact Hb].
  now rewrite forallb_rev.
Qed.

Lemma rstrip_by_suffix p s :
  exists tail, s = rstrip_by p s ++ tail.
Proof.
  unfold rstrip_by. exists (rev (take_while p (rev s))).
  rewrite <- rev_app_distr, take_drop. symmetry. apply rev_involutive.
Qed.

Lemma rstrip_by_incl p s c : In c (rstrip_by p s) -> In c s.
Proof.
  destruct (rstrip_by_suffix p s) as [tail E]. intros H.
  rewrite E. apply in_or_app. now left.
Qed.

End TextFacts.

Module ReFacts.
Import Text Re TextFacts.

(** When the continuation fails on every subject that starts with a
    character of the class, giving characters back cannot help: the
    repetition takes the whole run. *)
Lemma star_k_det p k s :
  (forall c s', p c = true -> k (c :: s') = None) ->
  star_k p k s = k (drop_while p s).
Proof.
  intros Hk. induction s as [|c s IH]; simpl; [reflexivity|].
  destruct (p c) eqn:E; [|reflexivity].
  rewrite IH. destruct (k (drop_while p s)); [reflexivity|].
  now apply Hk.
Qed.

(** When the continuation succeeds after the whole run, that is the
    match. *)
Lemma star_k_greedy p k s x :
  k (drop_while p s) = Some x -> star_k p k s = Some x.
Proof.
  induction s as [|c s IH]; simpl; intros H; [exact H|].
  destruct (p c); [|exact H]. now rewrite (IH H).
Qed.

Lemma exec_lit_chars l s k :
  exec (fold_right (fun c r => Cat (One (is_char c)) r) Eps l) s k
  = match Anchor.strip_prefix l s with
    | Some rest => k rest
    | None => None
    end.
Proof.
  revert s. induction l as [|a l IH]; intros s; simpl; [reflexivity|].
  destruct s as [|b s]; [reflexivity|].
  destruct (is_char a b); [apply IH | reflexivity].
Qed.

Lemma strip_prefix_app l rest : Anchor.strip_prefix l (l ++ rest) = Some rest.
Proof.
  induction l as [|a l IH]; simpl; [reflexivity|].
  now rewrite is_char_refl.
Qed.

Lemma strip_prefix_some l s rest :
  Anchor.strip_prefix l s = Some rest -> s = l ++ rest.
Proof.
  revert s. induction l as [|a l IH]; intros s; simpl.
  - now intros [= ->].
  - destruct s as [|b s]; [discriminate|].
    destruct (is_char a b) eqn:E; [|discriminate].
    apply is_char_true in E. subst b. intros H. now rewrite (IH _ H).
Qed.

(** The matched text is the part of the subject in front of the rest. *)
Lemma firstn_matched (pre rest : str) :
  firstn (length (pre ++ rest) - length rest) (pre ++ rest) = pre.
Proof.
  rewrite length_app, Nat.add_sub.
  rewrite firstn_app, Nat.sub_diag, firstn_all. simpl. apply app_nil_r.
Qed.

(** Deleting the matches of a one-character pattern is a filter. *)
Lemma sub_one_filter p s :
  re_sub_delete (One p) s = filter (fun c => negb (p c)) s.
Proof.
  unfold re_sub_delete. induction s as [|c s IH]; [reflexivity|].
  cbn [sub_from filter]. unfold match_len. cbn [exec].
  destruct (p c); cbn [negb].
  - cbn [length]. replace (S (length s) - length s) with 1 by lia.
    exact IH.
  - now rewrite IH.
Qed.

(** Deleting matches only deletes. *)
Lemma sub_from_incl r s : forall skip c,
  In c (sub_from r skip s) -> In c s.
Proof.
  induction s as [|b s IH]; intros skip c; simpl; [tauto|].
  destruct skip as [|n].
  - destruct (match_len r (b :: s)) as [[|m]|]; simpl; intros H.
    + destruct H as [H|H]; [now left | right; eauto].
    + right; eauto.
    + destruct H as [H|H]; [now left | right; eauto].
  - intros H. right. eauto.
Qed.

End ReFacts.

(* ================================================================== *)
(** * Properties of [_make_anchor] *)
(* ================================================================== *)

Module AnchorFacts.
Import Text Re Anchor TextFacts ReFacts.

Lemma dot_not_decimal : isdecimal c_dot = false.
Proof. reflexivity. Qed.

Lemma decimal_not_dot c : isdecimal c = true -> is_char c_dot c = false.
Proof. apply decimal_not_char, dot_not_decimal. Qed.

Lemma digit_or_dot_not_space c : digit_or_dot c = true -> isspace c = false.
Proof.
  unfold digit_or_dot. rewrite orb_true_iff. intros [H|H].
  - now apply decimal_not_space.
  - apply is_char_true in H. now subst.
Qed.

Lemma dot_or_colon_not_space c : dot_or_colon c = true -> isspace c = false.
Proof.
  unfold dot_or_colon. rewrite orb_true_iff, !is_char_true.
  intros [<-|<-]; reflexivity.
Qed.

Lemma exec_spaces s : exec (Star isspace) s Some = Some (drop_while isspace s).
Proof. now apply star_k_greedy. Qed.

(** What the first alternative does, without backtracking: a run of
    digits, a dot, the run of digits and dots, the run of white space. *)
Lemma exec_numeral s :
  exec re_numeral s Some =
  match s with
  | c :: s' =>
      if isdecimal c
      then match drop_while isdecimal s' with
           | d :: t =>
               if is_char c_dot d
               then Some (drop_while isspace (drop_while digit_or_dot t))
               else None
           | [] => None
           end
      else None
  | [] => None
  end.
Proof.
  unfold re_numeral, Plus. cbn [exec].
  destruct s as [|c s']; [reflexivity|].
  destruct (isdecimal c); [|reflexivity].
  rewrite star_k_det.
  - destruct (drop_while isdecimal s') as [|d t]; [reflexivity|].
    destruct (is_char c_dot d); [|reflexivity].
    apply star_k_greedy, exec_spaces.
  - intros d t Hd. now rewrite (decimal_not_dot d Hd).
Qed.

(** What the second alternative does, without backtracking. *)
Lemma exec_appendix s :
  exec re_appendix s Some =
  match strip_prefix (lit "Appendix") s with
  | Some (w :: s') =>
      if isspace w
      then match drop_while isspace s' with
           | letter :: mark :: rest =>
               if ascii_upper letter
               then if dot_or_colon mark
                    then Some (drop_while isspace rest)
                    else None
               else None
           | _ => None
           end
      else None
  | _ => None
  end.
Proof.
  unfold re_appendix, Plus. cbn [exec]. unfold Lit. rewrite exec_lit_chars.
  destruct (strip_prefix (lit "Appendix") s) as [[|w s']|]; try reflexivity.
  cbn [exec]. destruct (isspace w); [|reflexivity].
  rewrite star_k_det.
  - destruct (drop_while isspace s') as [|letter [|mark rest]];
      try reflexivity.
    + now destruct (ascii_upper letter).
    + destruct (ascii_upper letter); [|reflexivity].
      destruct (dot_or_colon mark); [|reflexivity].
      apply exec_spaces.
  - intros c t Hc. destruct (ascii_upper c) eqn:Hu; [|reflexivity].
    apply upper_not_space in Hu. congruence.
Qed.

Lemma exec_numbering s :
  exec re_numbering s Some =
  match exec re_numeral s Some with
  | Some rest => Some rest
  | None => exec re_appendix s Some
  end.
Proof. reflexivity. Qed.

(** A token splits the text. *)
Lemma token_prefix tok s :
  numbering_token tok s -> exists rest, s = tok ++ rest.
Proof.
  intros [ds more rest _ _ _ _ | ws letter mark rest _ _ _ _].
  - exists rest. now rewrite <- app_assoc.
  - exists rest. now rewrite <- !app_assoc.
Qed.

(** The pattern matches wherever the text begins with a token, and what
    it matches is the token and the white space behind it. *)
Lemma numbering_sound tok rest :
  numbering_token tok (tok ++ rest) ->
  exec re_numbering (tok ++ rest) Some = Some (drop_while isspace rest).
Proof.
  intros H. remember (tok ++ rest) as s eqn:Es.
  destruct H as [ds more rest' Hne Hds Hmore Hrest
                | ws letter mark rest' Hne Hws Hl Hm].
  - assert (rest' = rest) as ->.
    { rewrite <- app_assoc in Es. cbn [app] in Es.
      now apply app_inv_head in Es; injection Es as Es;
        apply app_inv_head in Es. }
    rewrite exec_numbering, exec_numeral.
    destruct ds as [|c ds]; [congruence|].
    cbn [app forallb] in *. apply andb_true_iff in Hds as [Hc Hds].
    rewrite Hc.
    rewrite (drop_while_app isdecimal ds (c_dot :: more ++ rest) Hds)
      by reflexivity.
    rewrite is_char_refl. now rewrite (drop_while_app _ _ _ Hmore Hrest).
  - assert (rest' = rest) as ->.
    { rewrite <- !app_assoc in Es. cbn [app] in Es.
      now do 2 apply app_inv_head in Es; injection Es as Es. }
    rewrite exec_numbering, exec_numeral, exec_appendix.
    cbn [lit list_ascii_of_string map app].
    replace (isdecimal (N_of_ascii "A")) with false by reflexivity.
    change (N_of_ascii "A" :: N_of_ascii "p" :: N_of_ascii "p"
              :: N_of_ascii "e" :: N_of_ascii "n" :: N_of_ascii "d"
              :: N_of_ascii "i" :: N_of_ascii "x"
              :: ws ++ letter :: mark :: rest)
      with (lit "Appendix" ++ ws ++ letter :: mark :: rest).
    rewrite strip_prefix_app.
    destruct ws as [|w ws]; [congruence|].
    cbn [app forallb] in *. apply andb_true_iff in Hws as [Hw Hws].
    rewrite Hw.
    rewrite (drop_while_app isspace ws (letter :: mark :: rest) Hws)
      by (now apply upper_not_space).
    now rewrite Hl, Hm.
Qed.

(** Conversely, the pattern matches only where the text begins with a
    token. *)
Lemma numbering_complete s r :
  exec re_numbering s Some = Some r -> exists tok, numbering_token tok s.
Proof.
  rewrite exec_numbering, exec_numeral, exec_appendix.
  destruct s as [|c s'].
  { cbn. discriminate. }
  destruct (isdecimal c) eqn:Hc.
  - destruct (drop_while isdecimal s') as [|d t] eqn:Ed; [|
      destruct (is_char c_dot d) eqn:Hd].
    + destruct (strip_prefix (lit "Appendix") (c :: s')) as [[|w u]|] eqn:Ep;
        try discriminate.
      apply strip_prefix_some in Ep. injection Ep as -> _.
      discriminate Hc.
    + intros _. apply is_char_true in Hd. subst d.
      exists ((c :: take_while isdecimal s')
              ++ c_dot :: take_while digit_or_dot t).
      rewrite <- (take_drop isdecimal s') at 2. rewrite Ed.
      rewrite <- (take_drop digit_or_dot t) at 2.
      change (c :: take_while isdecimal s' ++
                c_dot :: take_while digit_or_dot t ++ drop_while digit_or_dot t)
        with ((c :: take_while isdecimal s') ++
                c_dot :: take_while digit_or_dot t ++ drop_while digit_or_dot t).
      constructor.
      * discriminate.
      * cbn [forallb]. now rewrite Hc, take_while_all.
      * apply take_while_all.
      * apply drop_while_stops.
    + destruct (strip_prefix (lit "Appendix") (c :: s')) as [[|w u]|] eqn:Ep;
        try discriminate.
      apply strip_prefix_some in Ep. injection Ep as -> _.
      discriminate Hc.
  - destruct (strip_prefix (lit "Appendix") (c :: s')) as [[|w u]|] eqn:Ep;
      try discriminate.
    apply strip_prefix_some in Ep. rewrite Ep.
    destruct (isspace w) eqn:Hw; [|discriminate].
    destruct (drop_while isspace u) as [|letter [|mark rest]] eqn:Ed;
      try discriminate.
    destruct (ascii_upper letter) eqn:Hl; [|discriminate].
    destruct (dot_or_colon mark) eqn:Hm; [|discriminate].
    intros _.
    exists (lit "Appendix" ++ (w :: take_while isspace u) ++ [letter; mark]).
    rewrite <- (take_drop isspace u) at 2. rewrite Ed.
    change (lit "Appendix" ++ w :: take_while isspace u ++ letter :: mark :: rest)
      with (lit "Appendix" ++ (w :: take_while isspace u)
              ++ letter :: mark :: rest).
    constructor; try assumption.
    + discriminate.
    + cbn [forallb]. now rewrite Hw, take_while_all.
Qed.

(** [re.match] against a text that begins with a token: group 0 is the
    token and the white space behind it. *)
Lemma re_match_token tok rest :
  numbering_token tok (tok ++ rest) ->
  re_match re_numbering (tok ++ rest)
  = Some (tok ++ take_while isspace rest).
Proof.
  intros H. unfold re_match, match_len. rewrite (numbering_sound tok rest H).
  f_equal.
  rewrite <- (take_drop isspace rest) at 1 3.
  rewrite app_assoc. apply firstn_matched.
Qed.

Lemma re_match_no_token s :
  (forall tok, ~ numbering_token tok s) -> re_match re_numbering s = None.
Proof.
  intros H. unfold re_match, match_len.
  destruct (exec re_numbering s Some) as [r|] eqn:E; [|reflexivity].
  destruct (numbering_complete _ _ E) as [tok Ht]. now destruct (H tok).
Qed.

Lemma re_match_none_no_token s :
  re_match re_numbering s = None -> forall tok, ~ numbering_token tok s.
Proof.
  intros E tok Ht. destruct (token_prefix tok s Ht) as [rest ->].
  rewrite (re_match_token tok rest Ht) in E. discriminate E.
Qed.

(** A token neither begins nor ends with white space. *)
Lemma token_edges tok s :
  numbering_token tok s ->
  starts_with isspace tok = false /\ starts_with isspace (rev tok) = false.
Proof.
  intros [ds more rest Hne Hds Hmore _ | ws letter mark rest _ _ _ Hm].
  - split.
    + destruct ds as [|c ds]; [congruence|]. cbn in *.
      apply andb_true_iff in Hds as [Hc _]. now apply decimal_not_space.
    + rewrite rev_app_distr. cbn [rev].
      destruct (rev more) as [|z m] eqn:Er; [reflexivity|].
      cbn. apply digit_or_dot_not_space.
      rewrite <- forallb_rev, Er in Hmore. cbn in Hmore.
      now apply andb_true_iff in Hmore as [Hz _].
  - split; [reflexivity|].
    rewrite !rev_app_distr. cbn. now apply dot_or_colon_not_space.
Qed.

(** [strip] gives back the token. *)
Lemma strip_token tok s ws :
  numbering_token tok s -> forallb isspace ws = true ->
  strip (tok ++ ws) = tok.
Proof.
  intros Ht Hws. destruct (token_edges tok s Ht) as [Hhead Hlast].
  unfold strip, lstrip_by. rewrite drop_while_id.
  - now apply rstrip_by_app.
  - destruct tok as [|c tok]; [|exact Hhead].
    destruct Ht as [[|? ?] ? ? ? ? ? ? | ]; cbn in *; congruence.
Qed.

(** The three [replace] calls of the script, one after the other, are the
    normalisation of the specification. *)
Lemma replace_chain s :
  replace c_colon []
    (replace c_space [c_underscore] (replace c_dot [c_underscore] s))
  = flat_map normalize_char s.
Proof.
  unfold replace. induction s as [|c s IH]; [reflexivity|].
  cbn [flat_map]. rewrite !flat_map_app, IH. f_equal.
  unfold normalize_char.
  destruct (is_char c_dot c) eqn:Ed; [reflexivity|].
  cbn [flat_map app orb]. rewrite app_nil_r.
  destruct (is_char c_space c) eqn:Es; [reflexivity|].
  cbn [flat_map app]. rewrite app_nil_r. reflexivity.
Qed.

(** The matched branch of [_make_anchor]. *)
Lemma make_anchor_token text tok :
  numbering_token tok (strip_tags text) ->
  _make_anchor text = sec_ ++ normalize_token tok.
Proof.
  intros Ht. unfold _make_anchor. cbv zeta.
  destruct (token_prefix _ _ Ht) as [rest E]. rewrite E in Ht |- *.
  rewrite (re_match_token _ _ Ht).
  rewrite (strip_token _ _ _ Ht) by apply take_while_all.
  now rewrite replace_chain.
Qed.

(** The unmatched branch of [_make_anchor]. *)
Lemma make_anchor_words text :
  re_match re_numbering (strip_tags text) = None ->
  _make_anchor text = sec_ ++ word_anchor (strip_tags text).
Proof.
  intros E. unfold _make_anchor. cbv zeta. rewrite E.
  unfold fallback_words, word_anchor, re_junk. rewrite sub_one_filter.
  do 5 f_equal. apply filter_ext. intros c.
  unfold not_alnum_space, alnum_or_space. apply negb_involutive.
Qed.

(** *** The characters of an anchor *)

Lemma strip_tags_incl text c : In c (strip_tags text) -> In c text.
Proof. apply sub_from_incl. Qed.

Lemma firstn_incl (n : nat) (l : list str) w : In w (firstn n l) -> In w l.
Proof.
  intros H. rewrite <- (firstn_skipn n l). apply in_or_app. now left.
Qed.

(** A word of [split] is made of characters of the text that are not
    white space. *)
Lemma split_from_chars s : forall w word c,
  In word (split_from w s) -> In c word ->
  In c w \/ (In c s /\ isspace c = false).
Proof.
  induction s as [|b s IH]; intros w word c Hw Hc; cbn [split_from] in Hw.
  - destruct w; [destruct Hw|]. destruct Hw as [<-|[]]. now left.
  - destruct (isspace b) eqn:Eb.
    + assert (Hrec : In word (split_from [] s) ->
                     In c w \/ In c (b :: s) /\ isspace c = false).
      { intros H. destruct (IH [] word c H Hc) as [[]|[H1 H2]].
        right. split; [now right | exact H2]. }
      destruct w as [|a w]; [now apply Hrec|].
      destruct Hw as [<-|Hw]; [now left | now apply Hrec].
    + destruct (IH (w ++ [b]) word c Hw Hc) as [H|[H1 H2]].
      * apply in_app_or in H as [H|[<-|[]]]; [now left|].
        right. split; [now left | exact Eb].
      * right. split; [now right | exact H2].
Qed.

Lemma lower_char_alnum c : ascii_alnum c = true -> ascii_alnum (lower_char c) = true.
Proof.
  unfold lower_char. destruct (ascii_upper c) eqn:Hu; [|trivial].
  intros _. apply in_range_spec in Hu.
  unfold ascii_alnum. apply orb_true_iff. left. apply orb_true_iff. left.
  apply in_range_spec. lia.
Qed.

(** The words the fallback keeps are made of ASCII letters and digits;
    [lower] is applied to nothing else. *)
Lemma fallback_words_alnum clean word c :
  In word (firstn 4 (split (filter alnum_or_space clean))) ->
  In c word -> ascii_alnum c = true.
Proof.
  intros Hw Hc. apply firstn_incl in Hw.
  destruct (split_from_chars _ _ _ _ Hw Hc) as [[]|[Hin Hs]].
  apply filter_In in Hin as [_ Hk]. unfold alnum_or_space in Hk.
  rewrite Hs, orb_false_r in Hk. exact Hk.
Qed.

Lemma forallb_join (P : char -> bool) sep words :
  forallb P sep = true ->
  (forall w, In w words -> forallb P w = true) ->
  forallb P (join sep words) = true.
Proof.
  intros Hsep. induction words as [|w ws IH]; intros H; [reflexivity|].
  cbn [join]. destruct ws as [|w' ws]; [apply H; now left|].
  rewrite !forallb_app, Hsep, (H w) by now left.
  cbn [andb]. apply IH. intros x Hx. apply H. now right.
Qed.

Lemma word_anchor_chars clean : forallb anchor_char (word_anchor clean) = true.
Proof.
  unfold word_anchor. apply forallb_join; [reflexivity|].
  intros w Hw. apply in_map_iff in Hw as (word & <- & Hword).
  apply forallb_forall. intros c Hc.
  apply in_map_iff in Hc as (c0 & <- & Hc0).
  unfold anchor_char.
  now rewrite (lower_char_alnum _ (fallback_words_alnum _ _ _ Hword Hc0)).
Qed.

(** The characters of a token. *)
Lemma token_chars tok s c :
  numbering_token tok s -> In c tok ->
  isdecimal c = true \/ dot_or_colon c = true \/ isspace c = true
  \/ (ascii_upper c || ascii_lower c) = true.
Proof.
  intros [ds more rest _ Hds Hmore _ | ws letter mark rest _ Hws Hl Hm] Hc.
  - apply in_app_or in Hc as [Hc|[<-|Hc]].
    + left. now apply (proj1 (forallb_forall _ _) Hds).
    + right. now left.
    + apply (proj1 (forallb_forall _ _) Hmore) in Hc.
      unfold digit_or_dot in Hc. apply orb_true_iff in Hc as [Hc|Hc];
        [now left|].
      right. left. unfold dot_or_colon. now rewrite Hc.
  - apply in_app_or in Hc as [Hc|Hc].
    + do 3 right. cbn in Hc.
      repeat (destruct Hc as [<-|Hc]; [reflexivity|]). destruct Hc.
    + apply in_app_or in Hc as [Hc|[<-|[<-|[]]]].
      * right. right. left. now apply (proj1 (forallb_forall _ _) Hws).
      * do 3 right. now rewrite Hl.
      * right. now left.
Qed.

Lemma token_incl tok s c : numbering_token tok s -> In c tok -> In c s.
Proof.
  intros Ht Hc. destruct (token_prefix _ _ Ht) as [rest ->].
  apply in_or_app. now left.
Qed.

(** The normalised token is made of anchor characters as soon as the
    white space of the token is made of plain spaces and its digits are
    the digits 0-9. *)
Lemma normalize_token_chars tok s :
  numbering_token tok s ->
  (forall c, In c tok -> isspace c = true -> c = c_space) ->
  (forall c, In c tok -> isdecimal c = true -> ascii_digit c = true) ->
  forallb anchor_char (normalize_token tok) = true.
Proof.
  intros Ht Hsp Hdg. unfold normalize_token.
  apply forallb_forall. intros x Hx.
  apply in_flat_map in Hx as (c & Hc & Hx).
  apply rstrip_by_incl in Hc.
  unfold normalize_char in Hx.
  destruct (is_char c_dot c || is_char c_space c) eqn:E1.
  { destruct Hx as [<-|[]]. reflexivity. }
  destruct (is_char c_colon c) eqn:E2; [destruct Hx|].
  destruct Hx as [<-|[]].
  apply orb_false_iff in E1 as [Edot Espace].
  unfold anchor_char, ascii_alnum.
  destruct (token_chars _ _ _ Ht Hc) as [H|[H|[H|H]]].
  - now rewrite (Hdg _ Hc H), !orb_true_r.
  - unfold dot_or_colon in H. now rewrite Edot, E2 in H.
  - rewrite (Hsp _ Hc H) in Espace. discriminate Espace.
  - apply orb_true_iff in H as [H|H]; rewrite H; now rewrite ?orb_true_r.
Qed.

(** The two branches cover every text. *)
Lemma make_anchor_cases text :
  exists name : str,
    _make_anchor text = sec_ ++ name /\
    ((exists tok, numbering_token tok (strip_tags text)
                  /\ name = normalize_token tok)
     \/ ((forall tok, ~ numbering_token tok (strip_tags text))
         /\ name = word_anchor (strip_tags text))).
Proof.
  destruct (re_match re_numbering (strip_tags text)) as [g|] eqn:E.
  - unfold re_match, match_len in E.
    destruct (exec re_numbering (strip_tags text) Some) as [r|] eqn:Ex;
      [|discriminate].
    destruct (numbering_complete _ _ Ex) as [tok Ht].
    exists (normalize_token tok). split.
    + now apply make_anchor_token.
    + left. now exists tok.
  - exists (word_anchor (strip_tags text)). split.
    + now apply make_anchor_words.
    + right. split; [now apply re_match_none_no_token | reflexivity].
Qed.

End AnchorFacts.
(* ================================================================== *)
(** * Properties of the buffered heading system *)
(* ================================================================== *)

Module FlowFacts.
Import Text Re Anchor Flow.

Lemma append_each_spec items : forall st,
  append_each items st =
  mkScript (cw st) (story st ++ items) (_pending_heading st).
Proof.
  induction items as [|f items IH]; intros [w s p]; simpl.
  - now rewrite app_nil_r.
  - unfold append_each in IH. rewrite IH. simpl.
    now rewrite <- app_assoc.
Qed.

(** Both branches of [_flush_heading] move the whole buffer, item by
    item, to the end of the stream. *)
Lemma flush_heading_spec st :
  _flush_heading st =
  mkScript (cw st) (story st ++ _pending_heading st) [].
Proof.
  unfold _flush_heading. destruct st as [w s [|f p]].
  - simpl. now rewrite app_nil_r.
  - cbn [_pending_heading]. now rewrite append_each_spec.
Qed.

Lemma flush_heading_with_spec f st :
  _flush_heading_with f st =
  mkScript (cw st)
    (story st ++
       [match _pending_heading st with
        | [] => f
        | _ :: _ => KeepTogether (_pending_heading st ++ [f])
        end])
    [].
Proof.
  unfold _flush_heading_with, story_append.
  destruct st as [w s [|g p]]; reflexivity.
Qed.

Lemma heading_spec level text st :
  heading level text st =
  mkScript (cw st)
    (story st ++ _pending_heading st ++ direct_blocks level)
    (buffered_blocks (cw st) level text).
Proof.
  destruct level; unfold heading, section_heading, sub_heading,
    sub_sub_heading, pending_extend, story_append;
    rewrite flush_heading_spec; simpl;
    rewrite <- ?app_assoc, ?app_nil_r; reflexivity.
Qed.

Lemma spacer_spec h st :
  spacer h st =
  mkScript (cw st) (story st ++ _pending_heading st ++ [Spacer 1 h]) [].
Proof.
  unfold spacer, story_append. rewrite flush_heading_spec. simpl.
  now rewrite <- app_assoc.
Qed.

Lemma call_cases st c : call_view st c.
Proof.
  destruct c;
    try (eapply view_content; reflexivity);
    try apply view_spacer.
  - now apply (@view_heading st L1 text).
  - now apply (@view_heading st L2 text).
  - now apply (@view_heading st L3 text).
Qed.

Lemma step_cw c st : cw (step c st) = cw st.
Proof.
  destruct (call_cases st c) as [level text c E _|h|c f _ E _ _].
  - rewrite E, heading_spec. reflexivity.
  - cbn [step]. rewrite spacer_spec. reflexivity.
  - rewrite E, flush_heading_with_spec. reflexivity.
Qed.

Lemma run_cons c calls st : run (c :: calls) st = run calls (step c st).
Proof. reflexivity. Qed.

Lemma run_cw calls : forall st, cw (run calls st) = cw st.
Proof.
  induction calls as [|c calls IH]; intros st; [reflexivity|].
  rewrite run_cons, IH. apply step_cw.
Qed.

Lemma run_app calls1 calls2 st :
  run (calls1 ++ calls2) st = run calls2 (run calls1 st).
Proof. unfold run. apply fold_left_app. Qed.

(** The stream is append-only. *)
Lemma step_story_grows c st :
  exists more, story (step c st) = story st ++ more.
Proof.
  destruct (call_cases st c) as [level text c E _|h|c f _ E _ _].
  - rewrite E, heading_spec. simpl. eauto.
  - cbn [step]. rewrite spacer_spec. simpl. eauto.
  - rewrite E, flush_heading_with_spec. simpl. eauto.
Qed.

Lemma run_story_grows calls : forall st,
  exists more, story (run calls st) = story st ++ more.
Proof.
  induction calls as [|c calls IH]; intros st.
  - exists []. simpl. now rewrite app_nil_r.
  - destruct (IH (step c st)) as [m2 E2].
    destruct (step_story_grows c st) as [m1 E1].
    exists (m1 ++ m2). rewrite run_cons, E2, E1.
    now rewrite app_assoc.
Qed.

Lemma step_single_occupancy c st :
  single_occupancy (step c st).
Proof.
  destruct (call_cases st c) as [level text c E _|h|c f _ E _ _].
  - right. exists level, text. rewrite E, heading_spec. reflexivity.
  - left. cbn [step]. rewrite spacer_spec. reflexivity.
  - left. rewrite E, flush_heading_with_spec. reflexivity.
Qed.

Lemma run_single_occupancy calls : forall st,
  single_occupancy st -> single_occupancy (run calls st).
Proof.
  induction calls as [|c calls IH]; intros st H; [exact H|].
  rewrite run_cons. apply IH, step_single_occupancy.
Qed.

Lemma blocks_app s1 s2 : blocks (s1 ++ s2) = blocks s1 ++ blocks s2.
Proof. unfold blocks. apply flat_map_app. Qed.

Lemma blocks_ungrouped s :
  forallb (fun f => negb (is_group f)) s = true -> blocks s = s.
Proof.
  induction s as [|f s IH]; simpl; [reflexivity|].
  intros H. apply andb_true_iff in H as [Hf Hs].
  rewrite (IH Hs). destruct f; simpl in *; congruence.
Qed.

Lemma buffered_ungrouped w level text :
  forallb (fun f => negb (is_group f)) (buffered_blocks w level text) = true.
Proof. destruct level; reflexivity. Qed.

(** What is in the stream and in the buffer, taken together, grows by
    exactly the blocks the call produces. *)
Lemma step_held c st :
  single_occupancy st ->
  held (step c st) = held st ++ produced_by (cw st) c.
Proof.
  intros Hocc. unfold held.
  assert (Hp : blocks (_pending_heading st) = _pending_heading st).
  { destruct Hocc as [->|(level & text & ->)]; [reflexivity|].
    apply blocks_ungrouped, buffered_ungrouped. }
  destruct (call_cases st c) as [level text c E P|h|c f _ E P G].
  - rewrite E, P, heading_spec. simpl. unfold decorations.
    rewrite !blocks_app, Hp, <- !app_assoc.
    f_equal. f_equal. f_equal. now destruct level.
  - cbn [step]. rewrite spacer_spec. simpl.
    rewrite !blocks_app, Hp, app_nil_r, <- app_assoc. reflexivity.
  - rewrite E, P, flush_heading_with_spec. cbn [story _pending_heading].
    rewrite blocks_app, app_nil_r.
    destruct (_pending_heading st) as [|g p] eqn:Epen.
    + rewrite app_nil_r. f_equal.
      destruct f; try reflexivity; discriminate.
    + rewrite <- app_assoc. f_equal. cbn. now rewrite app_nil_r.
Qed.

Lemma run_held calls : forall st,
  single_occupancy st ->
  held (run calls st) = held st ++ produced (cw st) calls.
Proof.
  induction calls as [|c calls IH]; intros st Hocc.
  - simpl. now rewrite app_nil_r.
  - rewrite run_cons, IH by apply step_single_occupancy.
    rewrite step_held by assumption.
    cbn [produced flat_map]. now rewrite step_cw, <- app_assoc.
Qed.

End FlowFacts.

(* ================================================================== *)
(** * The heading buffer: stated properties *)
(* ================================================================== *)

Import Text Re Anchor Toc Flow FlowFacts.

(** C2, as stated, fails: after [section_heading "X"] and [body "P"] on a
    fresh document the stream is not the single group made of the whole
    level-1 decoration set and the paragraph.  The page break is a
    stream element of its own, in front of the group. *)
Lemma heading_content_not_single_group :
  story (run [call_section_heading (lit "X"); call_body (lit "P")]
             (create_document sample_width))
  = [ PageBreak;
      KeepTogether [ title_block L1 (lit "X"); AccentBar sample_width 1;
                     Spacer 1 12; Paragraph (lit "P") body_style ] ]
  /\
  story (run [call_section_heading (lit "X"); call_body (lit "P")]
             (create_document sample_width))
  <> [ KeepTogether (decorations sample_width L1 (lit "X")
                     ++ [Paragraph (lit "P") body_style]) ].
Proof.
  split; [reflexivity|].
  intros H. vm_compute in H. discriminate H.
Qed.

(** C2, amended: with nothing buffered, [section_heading text] followed
    by a content call that builds the block [P] appends to the stream the
    page break, standing alone, and then exactly one keep-together group
    made of the anchored title, the divider, the spacer and [P]; nothing
    else is appended and the buffer is empty again. *)
Theorem heading_content_page_break_then_group :
  forall (st : Script) (text : str) (c : Call) (P : Flowable),
    _pending_heading st = [] ->
    content_block (cw st) c = Some P ->
    story (run [call_section_heading text; c] st)
    = story st ++
      [ PageBreak;
        KeepTogether [ title_block L1 text; AccentBar (cw st) 1;
                       Spacer 1 12; P ] ]
    /\ _pending_heading (run [call_section_heading text; c] st) = [].
Proof.
  intros st text c P Hempty Hc.
  assert (E : step c (section_heading text st)
              = _flush_heading_with P (section_heading text st)).
  { destruct c; try discriminate Hc; cbn in Hc;
      injection Hc as <-; try reflexivity.
    cbn [step]. unfold table.
    change (section_heading text st) with (heading L1 text st).
    now rewrite heading_spec. }
  rewrite !run_cons. cbn [run fold_left step]. rewrite E.
  rewrite flush_heading_with_spec.
  change (section_heading text st) with (heading L1 text st).
  rewrite heading_spec, Hempty. cbn.
  rewrite <- app_assoc. split; reflexivity.
Qed.

Lemma heading_content_page_break_then_group_witness :
  _pending_heading (create_document sample_width) = [] /\
  content_block sample_width (call_code (lit "x = 1") (lit "python"))
    = Some (CodeBlock (lit "x = 1") (lit "python")) /\
  story (run [ call_section_heading (lit "2. Introduction");
               call_code (lit "x = 1") (lit "python") ]
             (create_document sample_width))
  = [ PageBreak;
      KeepTogether [ title_block L1 (lit "2. Introduction");
                     AccentBar sample_width 1; Spacer 1 12;
                     CodeBlock (lit "x = 1") (lit "python") ] ].
Proof.
  split; [reflexivity|]. split; [reflexivity|].
  exact (proj1 (@heading_content_page_break_then_group
                  (create_document sample_width) (lit "2. Introduction")
                  (call_code (lit "x = 1") (lit "python"))
                  (CodeBlock (lit "x = 1") (lit "python"))
                  eq_refl eq_refl)).
Defined.

(** C6: the buffer holds at most one heading's decorations at every point
    of every call sequence.  From a state that satisfies the invariant,
    any sequence of calls leads to a state that satisfies it; and in that
    state a heading call of any level first moves whatever is buffered to
    the stream, item by item and outside any group, and then leaves its
    own blocks, and only them, in the buffer. *)
Theorem buffer_single_occupancy :
  forall (st : Script) (calls : list Call),
    single_occupancy st ->
    single_occupancy (run calls st) /\
    forall (level : Level) (text : str),
      story (heading level text (run calls st))
      = story (run calls st) ++ _pending_heading (run calls st)
        ++ direct_blocks level
      /\ _pending_heading (heading level text (run calls st))
         = buffered_blocks (cw st) level text.
Proof.
  intros st calls H. split.
  - now apply run_single_occupancy.
  - intros level text. rewrite heading_spec, run_cw. split; reflexivity.
Qed.

(** [heading(1, "X"); heading(1, "Y")]: the blocks of [X] reach the stream
    one by one, and only the blocks of [Y] stay buffered. *)
Lemma buffer_single_occupancy_witness :
  single_occupancy (create_document sample_width) /\
  story (run [call_section_heading (lit "X"); call_section_heading (lit "Y")]
             (create_document sample_width))
  = [ PageBreak; title_block L1 (lit "X"); AccentBar sample_width 1;
      Spacer 1 12; PageBreak ]
  /\
  _pending_heading
    (run [call_section_heading (lit "X"); call_section_heading (lit "Y")]
         (create_document sample_width))
  = [ title_block L1 (lit "Y"); AccentBar sample_width 1; Spacer 1 12 ].
Proof.
  assert (H0 : single_occupancy (create_document sample_width))
    by (left; reflexivity).
  split; [exact H0|].
  exact (proj2 (@buffer_single_occupancy (create_document sample_width)
                  [call_section_heading (lit "X")] H0) L1 (lit "Y")).
Defined.

(** C7: [spacer(h)] moves whatever is buffered to the stream, item by
    item and outside any group, then appends [Spacer(1, h)] to the stream
    itself and leaves the buffer empty; whatever is called afterwards,
    that spacer stays the stream element at its position, so it is never
    a member of a keep-together group. *)
Theorem spacer_flushes_unbonded_stands_alone :
  forall (st : Script) (h : Z),
    story (spacer h st) = story st ++ _pending_heading st ++ [Spacer 1 h]
    /\ _pending_heading (spacer h st) = []
    /\ forall calls : list Call,
         nth_error (story (finalize (run calls (spacer h st))))
                   (length (story st ++ _pending_heading st))
         = Some (Spacer 1 h).
Proof.
  intros st h. rewrite spacer_spec. cbn [story _pending_heading].
  split; [reflexivity|]. split; [reflexivity|].
  intros calls. unfold finalize. rewrite flush_heading_spec.
  cbn [story].
  destruct (run_story_grows calls
              (mkScript (cw st)
                 (story st ++ _pending_heading st ++ [Spacer 1 h]) []))
    as [more E].
  rewrite E. cbn [story].
  rewrite app_assoc, <- !app_assoc.
  rewrite app_assoc.
  rewrite nth_error_app2 by lia.
  now rewrite Nat.sub_diag.
Qed.

(** C8: from a state with nothing buffered, a sequence of calls followed
    by the final flush appends to the stream exactly the blocks the calls
    produced, each once and in order, some of them as members of groups;
    nothing stays in the buffer. *)
Theorem blocks_conserved :
  forall (st : Script) (calls : list Call),
    _pending_heading st = [] ->
    exists new : list Flowable,
      story (finalize (run calls st)) = story st ++ new
      /\ blocks new = produced (cw st) calls
      /\ _pending_heading (finalize (run calls st)) = [].
Proof.
  intros st calls Hempty.
  assert (Hocc : single_occupancy st) by (now left).
  pose proof (run_held calls st Hocc) as Hheld.
  pose proof (run_single_occupancy calls st Hocc) as Hocc'.
  destruct (run_story_grows calls st) as [more Hmore].
  unfold finalize. rewrite flush_heading_spec. cbn [story _pending_heading].
  exists (more ++ _pending_heading (run calls st)).
  split; [now rewrite Hmore, app_assoc|].
  split; [|reflexivity].
  unfold held in Hheld. rewrite Hmore, Hempty, app_nil_r in Hheld.
  rewrite blocks_app, <- app_assoc in Hheld.
  apply app_inv_head in Hheld.
  rewrite blocks_app, <- Hheld. f_equal.
  destruct Hocc' as [->|(level & text & ->)]; [reflexivity|].
  apply blocks_ungrouped, buffered_ungrouped.
Qed.

(** [heading(1, "X"); finalize()]: the four blocks of [X], each once. *)
Lemma blocks_conserved_witness :
  _pending_heading (create_document sample_width) = [] /\
  exists new : list Flowable,
    story (finalize (run [call_section_heading (lit "X")]
                         (create_document sample_width))) = [] ++ new
    /\ blocks new
       = [ PageBreak; title_block L1 (lit "X"); AccentBar sample_width 1;
           Spacer 1 12 ]
    /\ _pending_heading
         (finalize (run [call_section_heading (lit "X")]
                        (create_document sample_width))) = [].
Proof.
  split; [reflexivity|].
  exact (@blocks_conserved (create_document sample_width)
           [call_section_heading (lit "X")] eq_refl).
Defined.

(* ================================================================== *)
(** * Anchors: stated properties *)
(* ================================================================== *)

Import TextFacts ReFacts AnchorFacts.

Lemma str_eqb_eq a : forall b, str_eqb a b = true -> a = b.
Proof.
  induction a as [|x a IH]; intros [|y b]; cbn; try discriminate;
    [reflexivity|].
  intros H. apply andb_true_iff in H as [Hx Hab].
  apply N.eqb_eq in Hx. subst y. now rewrite (IH b Hab).
Qed.

Lemma toc_entries_agree : forallb entry_agrees toc_entries = true.
Proof. vm_compute. reflexivity. Qed.

(** Every entry of the table of contents has a heading in the body that
    opens with its label. *)
Lemma toc_entries_have_headings :
  forallb entry_has_heading toc_entries = true.
Proof. vm_compute. reflexivity. Qed.

(** C1: for every entry of [toc_entries], the anchor the table-of-contents
    loop computes is one of the anchor names the body carries, and it is
    the anchor [_make_anchor] returns for every heading of the body that
    opens with the entry's number (for the appendices: with [Appendix],
    the letter and a colon). *)
Theorem toc_anchor_agreement :
  forall (e : TOCEntry),
    In e toc_entries ->
    In (entry_anchor e) emitted_anchors /\
    forall heading : str,
      In heading body_headings ->
      heading_matches e heading = true ->
      entry_anchor e = _make_anchor heading.
Proof.
  intros e He.
  pose proof (proj1 (forallb_forall _ _) toc_entries_agree e He) as H.
  unfold entry_agrees in H. apply andb_true_iff in H as [Hem Hall].
  split.
  - apply existsb_exists in Hem as (a & Ha & Eq).
    apply str_eqb_eq in Eq. now rewrite Eq.
  - intros heading Hh Hm.
    pose proof (proj1 (forallb_forall _ _) Hall heading Hh) as H.
    cbv beta in H. rewrite Hm in H. now apply str_eqb_eq.
Qed.

Lemma toc_anchor_agreement_witness :
  In (lit "2.", lit "Introduction", false) toc_entries /\
  In (lit "2. Introduction") body_headings /\
  heading_matches (lit "2.", lit "Introduction", false)
                  (lit "2. Introduction") = true /\
  entry_anchor (lit "2.", lit "Introduction", false)
  = _make_anchor (lit "2. Introduction").
Proof.
  assert (He : In (lit "2.", lit "Introduction", false) toc_entries)
    by (right; left; reflexivity).
  assert (Hh : In (lit "2. Introduction") body_headings)
    by (right; left; reflexivity).
  split; [exact He|]. split; [exact Hh|]. split; [reflexivity|].
  exact (proj2 (toc_anchor_agreement _ He) _ Hh eq_refl).
Defined.

(** A tag begins with the character [<]: in front of it nothing is
    deleted. *)
Lemma no_tag_here c s : is_char c_lt c = false -> match_len re_tag (c :: s) = None.
Proof.
  intros H. unfold match_len, re_tag. cbn [exec]. now rewrite H.
Qed.

Lemma strip_tags_prefix pre rest :
  forallb (fun c => negb (is_char c_lt c)) pre = true ->
  strip_tags (pre ++ rest) = pre ++ strip_tags rest.
Proof.
  unfold strip_tags, re_sub_delete.
  induction pre as [|c pre IH]; intros H; [reflexivity|].
  cbn [forallb] in H. apply andb_true_iff in H as [Hc Hpre].
  apply negb_true_iff in Hc.
  cbn [app sub_from]. rewrite (no_tag_here c (pre ++ rest) Hc).
  now rewrite IH.
Qed.

(** C3: for the letters A and B, the literal anchor of the
    table-of-contents loop for the entry numbered with the letter and a
    dot, and the anchor [_make_anchor] derives through the [Appendix]
    alternative from a heading [Appendix <letter>:<rest>], are the same
    string, [sec_Appendix_<letter>]. *)
Theorem appendix_anchors_coincide :
  forall (letter : char) (title rest : str) (is_sub : bool),
    letter = N_of_ascii "A" \/ letter = N_of_ascii "B" ->
    entry_anchor ([letter; c_dot], title, is_sub)
    = lit "sec_Appendix_" ++ [letter]
    /\ _make_anchor (lit "Appendix " ++ [letter; c_colon] ++ rest)
       = lit "sec_Appendix_" ++ [letter].
Proof.
  intros letter title rest is_sub Hl.
  split; [destruct Hl as [->| ->]; reflexivity|].
  assert (Hu : ascii_upper letter = true)
    by (destruct Hl as [->| ->]; reflexivity).
  assert (Ht : numbering_token
                 (lit "Appendix" ++ [c_space] ++ [letter; c_colon])
                 (strip_tags (lit "Appendix " ++ [letter; c_colon] ++ rest))).
  { rewrite strip_tags_prefix by reflexivity.
    rewrite (strip_tags_prefix [letter; c_colon] rest)
      by (destruct Hl as [->| ->]; reflexivity).
    apply (token_appendix [c_space] letter c_colon (strip_tags rest));
      try reflexivity; [discriminate | exact Hu]. }
  rewrite (make_anchor_token _ _ Ht).
  destruct Hl as [->| ->]; reflexivity.
Qed.

Lemma appendix_anchors_coincide_witness :
  (N_of_ascii "A" = N_of_ascii "A" \/ N_of_ascii "A" = N_of_ascii "B") /\
  entry_anchor (lit "A.", lit "Notation Reference", false)
  = lit "sec_Appendix_A"
  /\ _make_anchor (lit "Appendix A: Notation Reference")
     = lit "sec_Appendix_A".
Proof.
  split; [left; reflexivity|].
  exact (appendix_anchors_coincide (N_of_ascii "A") (lit "Notation Reference")
           (lit " Notation Reference") false (or_introl eq_refl)).
Defined.

(** C4: when the text, once its tags are stripped, begins with a
    numbering token - a dotted numeral or [Appendix], a capital letter
    and a dot or colon - the anchor is [sec_] followed by the token with
    its trailing dots trimmed, its other dots and its spaces turned into
    underscores and its colons dropped. *)
Theorem numbered_heading_anchor :
  forall (text tok : str),
    numbering_token tok (strip_tags text) ->
    _make_anchor text = sec_ ++ normalize_token tok.
Proof.
  intros text tok Ht.
  destruct (token_prefix _ _ Ht) as [rest E].
  unfold _make_anchor. cbv zeta. rewrite E in Ht |- *.
  (* group 0 is the token and the white space behind it *)
  rewrite (re_match_token _ _ Ht).
  (* [strip] removes that white space and nothing of the token *)
  rewrite (strip_token _ _ _ Ht) by apply take_while_all.
  (* the three [replace] calls are the normalisation *)
  unfold normalize_token. now rewrite replace_chain.
Qed.

Lemma numbered_heading_anchor_witness :
  numbering_token (lit "2.1") (strip_tags (lit "2.1 The Quantum Threat")) /\
  _make_anchor (lit "2.1 The Quantum Threat") = lit "sec_2_1".
Proof.
  assert (Ht : numbering_token (lit "2.1")
                 (strip_tags (lit "2.1 The Quantum Threat"))).
  { apply (token_numeral (lit "2") (lit "1") (lit " The Quantum Threat"));
      [discriminate | reflexivity | reflexivity | reflexivity]. }
  split; [exact Ht|].
  exact (numbered_heading_anchor (lit "2.1 The Quantum Threat") (lit "2.1") Ht).
Defined.

(** C5: when the text, once its tags are stripped, begins with no
    numbering token, the anchor is [sec_] followed by the first four
    words of what is left of it after every character other than an
    ASCII letter, a digit 0-9 or white space is deleted, each word in
    lower case, joined by underscores. *)
Theorem unnumbered_heading_anchor :
  forall (text : str),
    (forall tok, ~ numbering_token tok (strip_tags text)) ->
    _make_anchor text = sec_ ++ word_anchor (strip_tags text).
Proof.
  intros text H.
  assert (E : re_match re_numbering (strip_tags text) = None).
  { unfold re_match, match_len.
    destruct (exec re_numbering (strip_tags text) Some) as [r|] eqn:Ex;
      [|reflexivity].
    destruct (numbering_complete _ _ Ex) as [tok Ht]. now destruct (H tok). }
  unfold _make_anchor. cbv zeta. rewrite E.
  unfold fallback_words, word_anchor, re_junk. rewrite sub_one_filter.
  do 5 f_equal. apply filter_ext. intros c.
  unfold not_alnum_space, alnum_or_space. apply negb_involutive.
Qed.

Lemma unnumbered_heading_anchor_witness :
  (forall tok,
     ~ numbering_token tok (strip_tags (lit "No Numbering Here At All"))) /\
  _make_anchor (lit "No Numbering Here At All")
  = lit "sec_no_numbering_here_at".
Proof.
  assert (H : forall tok,
             ~ numbering_token tok
                 (strip_tags (lit "No Numbering Here At All")))
    by (apply re_match_none_no_token; reflexivity).
  split; [exact H|].
  exact (unnumbered_heading_anchor (lit "No Numbering Here At All") H).
Defined.

(** C9: [_make_anchor] yields an anchor for every text; every operation
    it is made of is defined on every string, and [m.group(0)] is
    reached only when there is a match.  Either the stripped text begins
    with a numbering token and the anchor is built from it, or it begins
    with none and the anchor is built from its words; the empty text, a
    text made of tags only and a text made of punctuation only give the
    bare prefix. *)
Theorem make_anchor_total :
  (forall text : str,
     exists name : str,
       _make_anchor text = sec_ ++ name /\
       ((exists tok, numbering_token tok (strip_tags text)
                     /\ name = normalize_token tok)
        \/ ((forall tok, ~ numbering_token tok (strip_tags text))
            /\ name = word_anchor (strip_tags text))))
  /\ _make_anchor [] = lit "sec_"
  /\ _make_anchor (lit "<b></b>") = lit "sec_"
  /\ _make_anchor (lit "!?") = lit "sec_".
Proof.
  split; [exact make_anchor_cases | repeat split; reflexivity].
Qed.

(** C10, as stated, fails: the text made of the Arabic-Indic digit three
    (U+0663) and a dot has no white space at all, and its anchor is
    [sec_] followed by that digit, which is not an ASCII character. *)
Lemma anchor_charset_fails_on_unicode_digit :
  (forall c, In c [1635%N; c_dot] -> isspace c = true -> c = c_space) /\
  _make_anchor [1635%N; c_dot] = sec_ ++ [1635%N] /\
  ~ (exists body : str,
       _make_anchor [1635%N; c_dot] = sec_ ++ body /\
       forallb anchor_char body = true).
Proof.
  split; [|split; [reflexivity|]].
  - intros c [<-|[<-|[]]] H; vm_compute in H; discriminate H.
  - intros (body & E & H).
    change (_make_anchor [1635%N; c_dot]) with (sec_ ++ [1635%N]) in E.
    apply app_inv_head in E. subst body. vm_compute in H. discriminate H.
Qed.

(** C10, amended: for every text whose white-space characters are all
    plain spaces and whose decimal digits are all among 0-9, the anchor is
    [sec_] followed only by ASCII letters, digits 0-9 and underscores. *)
Theorem anchor_charset :
  forall (text : str),
    (forall c, In c text -> isspace c = true -> c = c_space) ->
    (forall c, In c text -> isdecimal c = true -> ascii_digit c = true) ->
    exists body : str,
      _make_anchor text = sec_ ++ body /\
      forallb anchor_char body = true.
Proof.
  intros text Hsp Hdg.
  destruct (make_anchor_cases text)
    as (name & E & [(tok & Ht & ->)|[_ ->]]).
  - exists (normalize_token tok). split; [exact E|].
    apply (normalize_token_chars _ _ Ht).
    + intros c Hc. apply Hsp, strip_tags_incl. now apply (token_incl _ _ _ Ht).
    + intros c Hc. apply Hdg, strip_tags_incl. now apply (token_incl _ _ _ Ht).
  - exists (word_anchor (strip_tags text)). split; [exact E|].
    apply word_anchor_chars.
Qed.

Lemma forallb_In_imp (P Q : char -> bool) (l : str) :
  forallb (fun c => implb (P c) (Q c)) l = true ->
  forall c, In c l -> P c = true -> Q c = true.
Proof.
  intros H c Hc HP. apply (proj1 (forallb_forall _ _) H) in Hc.
  now rewrite HP in Hc.
Qed.

Lemma anchor_charset_witness :
  exists body : str,
    _make_anchor (lit "Appendix A: <b>Notation</b> Reference, 2nd") = sec_ ++ body /\
    forallb anchor_char body = true.
Proof.
  apply anchor_charset.
  - intros c Hc Hs. apply N.eqb_eq. revert c Hc Hs.
    apply (forallb_In_imp isspace (fun c => (c =? c_space)%N)).
    reflexivity.
  - apply forallb_In_imp. reflexivity.
Defined.

(* ================================================================== *)
(** * Worked examples *)
(* ================================================================== *)

Example anchor_of_numbered_heading :
  _make_anchor (lit "12.4 The H1 Timing Fix") = lit "sec_12_4".
Proof. reflexivity. Qed.

Example anchor_of_tagged_heading :
  _make_anchor (lit "<b>3.</b> Account-Level") = lit "sec_3".
Proof. reflexivity. Qed.

Example anchor_of_theorem_heading :
  _make_anchor (lit "Theorem 1: Correctness") = lit "sec_theorem_1_correctness".
Proof. reflexivity. Qed.

Example anchor_numeral_then_letters :
  _make_anchor (lit "2.1abc") = lit "sec_2_1".
Proof. reflexivity. Qed.

Example anchor_numeral_without_dot :
  _make_anchor (lit "2 Introduction") = lit "sec_2_introduction".
Proof. reflexivity. Qed.

Example anchor_unclosed_tag :
  _make_anchor (lit "a<b") = lit "sec_ab".
Proof. reflexivity. Qed.

Example anchor_tag_with_spaces :
  _make_anchor (lit "x < y > z") = lit "sec_x_z".
Proof. reflexivity. Qed.

Example anchor_doubled_dot :
  _make_anchor (lit "2..1") = lit "sec_2__1".
Proof. reflexivity. Qed.

Example anchor_appendix_without_mark :
  _make_anchor (lit "Appendix A Notation") = lit "sec_appendix_a_notation".
Proof. reflexivity. Qed.

Example anchor_appendix_tab :
  _make_anchor (lit "Appendix" ++ [9%N] ++ lit "A: x")
  = lit "sec_Appendix" ++ [9%N] ++ lit "A".
Proof. reflexivity. Qed.

Example heading_then_finalize :
  story (finalize (run [call_section_heading (lit "X")]
                       (create_document sample_width)))
  = [ PageBreak; title_block L1 (lit "X"); AccentBar sample_width 1;
      Spacer 1 12 ].
Proof. reflexivity. Qed.

Example sub_heading_then_body :
  story (run [call_sub_heading (lit "2.1 T"); call_body (lit "P")]
             (create_document sample_width))
  = [ KeepTogether [ Spacer 1 16; title_block L2 (lit "2.1 T"); Spacer 1 6;
                     Paragraph (lit "P") body_style ] ].
Proof. reflexivity. Qed.

Example heading_spacer_body :
  story (run [call_sub_heading (lit "2.1 T"); call_spacer 8;
              call_body (lit "P")]
             (create_document sample_width))
  = [ Spacer 1 16; title_block L2 (lit "2.1 T"); Spacer 1 6; Spacer 1 8;
      Paragraph (lit "P") body_style ].
Proof. reflexivity. Qed.

(* ================================================================== *)
(** * Further properties: tags, escaping and inline markup *)
(* ================================================================== *)

Module MarkupFacts.
Import Text Re Anchor Markup TextFacts ReFacts AnchorFacts.

Lemma has_char_false a s :
  has_char a s = false <-> forallb (fun c => negb (is_char a c)) s = true.
Proof.
  unfold has_char. induction s as [|c s IH]; cbn; [tauto|].
  rewrite orb_false_iff, andb_true_iff, negb_true_iff, IH. tauto.
Qed.

Lemma has_char_app a s t :
  has_char a (s ++ t) = has_char a s || has_char a t.
Proof. apply existsb_app. Qed.

Lemma has_char_in a s : has_char a s = true <-> In a s.
Proof.
  unfold has_char. rewrite existsb_exists. split.
  - intros (c & Hc & E). apply is_char_true in E. now subst.
  - intros H. exists a. split; [exact H | apply is_char_refl].
Qed.

(** Once a match has begun, its characters are skipped whatever they
    are. *)
Lemma sub_from_skip r pre rest :
  sub_from r (length pre) (pre ++ rest) = sub_from r 0 rest.
Proof. induction pre as [|c pre IH]; [reflexivity | exact IH]. Qed.

(** A tag is matched exactly when [<] is followed by at least one
    character other than [>] and, somewhere behind, by [>]. *)
Lemma match_tag body rest :
  body <> [] -> has_char c_gt body = false ->
  match_len re_tag (c_lt :: body ++ c_gt :: rest)
  = Some (S (length (body ++ [c_gt]))).
Proof.
  intros Hne Hb. apply has_char_false in Hb.
  destruct body as [|d body]; [congruence|].
  cbn [forallb] in Hb. apply andb_true_iff in Hb as [Hd Hbody].
  unfold match_len, re_tag, Plus. cbn [exec app].
  rewrite is_char_refl. change (not_gt d = true) in Hd. rewrite Hd.
  rewrite star_k_det.
  - rewrite (drop_while_app not_gt body (c_gt :: rest) Hbody)
      by reflexivity.
    rewrite is_char_refl. f_equal.
    cbn [length]. rewrite !length_app. cbn [length]. lia.
  - intros c s' Hc. unfold not_gt in Hc. apply negb_true_iff in Hc.
    now rewrite Hc.
Qed.

Lemma no_tag_unclosed s :
  has_char c_gt s = false -> forall c, match_len re_tag (c :: s) = None.
Proof.
  intros Hs c. unfold match_len, re_tag, Plus. cbn [exec].
  destruct (is_char c_lt c); [|reflexivity].
  destruct s as [|d s]; [reflexivity|].
  destruct (not_gt d); [|reflexivity].
  apply has_char_false in Hs. cbn [forallb] in Hs.
  apply andb_true_iff in Hs as [_ Hs].
  rewrite star_k_det.
  - assert (E : drop_while not_gt s = []).
    { rewrite <- (app_nil_r s). now apply drop_while_app. }
    now rewrite E.
  - intros c' s' Hc. unfold not_gt in Hc. apply negb_true_iff in Hc.
    now rewrite Hc.
Qed.

Lemma no_tag_empty rest c :
  is_char c_lt c = true -> match_len re_tag (c :: c_gt :: rest) = None.
Proof.
  intros Hc. unfold match_len, re_tag, Plus. cbn [exec]. now rewrite Hc.
Qed.

Lemma strip_tags_prefix' pre rest :
  has_char c_lt pre = false ->
  strip_tags (pre ++ rest) = pre ++ strip_tags rest.
Proof.
  intros H. apply has_char_false in H.
  unfold strip_tags, re_sub_delete.
  induction pre as [|c pre IH]; [reflexivity|].
  cbn [forallb] in H. apply andb_true_iff in H as [Hc Hpre].
  apply negb_true_iff in Hc.
  cbn [app sub_from].
  assert (E : match_len re_tag (c :: pre ++ rest) = None).
  { unfold match_len, re_tag. cbn [exec]. now rewrite Hc. }
  rewrite E. now rewrite IH.
Qed.

Lemma strip_tag_removed pre body rest :
  has_char c_lt pre = false ->
  body <> [] -> has_char c_gt body = false ->
  strip_tags (pre ++ c_lt :: body ++ c_gt :: rest) = pre ++ strip_tags rest.
Proof.
  intros Hpre Hne Hbody. rewrite (strip_tags_prefix' _ _ Hpre). f_equal.
  unfold strip_tags, re_sub_delete. cbn [sub_from].
  rewrite (match_tag body rest Hne Hbody).
  replace (body ++ c_gt :: rest) with ((body ++ [c_gt]) ++ rest)
    by (now rewrite <- app_assoc).
  apply sub_from_skip.
Qed.

Lemma make_anchor_ext a b' :
  strip_tags a = strip_tags b' -> _make_anchor a = _make_anchor b'.
Proof. intros E. unfold _make_anchor. now rewrite E. Qed.

Lemma drop_while_length p s : length (drop_while p s) <= length s.
Proof.
  induction s as [|c s IH]; cbn; [lia|]. destruct (p c); cbn; lia.
Qed.

Lemma drop_while_nil p s : drop_while p s = [] -> forallb p s = true.
Proof.
  intros E. rewrite <- (take_drop p s), E, app_nil_r. apply take_while_all.
Qed.

(** What [match_len re_tag] computes. *)
Lemma match_tag_cases c s :
  match_len re_tag (c :: s) =
  if is_char c_lt c
  then match s with
       | d :: s' =>
           if not_gt d
           then match drop_while not_gt s' with
                | _ :: rest => Some (length (c :: s) - length rest)
                | [] => None
                end
           else None
       | [] => None
       end
  else None.
Proof.
  unfold match_len, re_tag, Plus. cbn [exec].
  destruct (is_char c_lt c); [|reflexivity].
  destruct s as [|d s']; [reflexivity|].
  destruct (not_gt d); [|reflexivity].
  rewrite star_k_det.
  - destruct (drop_while not_gt s') as [|g rest] eqn:E; [reflexivity|].
    pose proof (drop_while_stops not_gt s') as Hg. rewrite E in Hg.
    unfold not_gt in Hg. apply negb_false_iff in Hg. now rewrite Hg.
  - intros c' s0 Hc. unfold not_gt in Hc. apply negb_true_iff in Hc.
    now rewrite Hc.
Qed.

Lemma match_tag_positive c s : match_len re_tag (c :: s) <> Some 0.
Proof.
  rewrite match_tag_cases.
  destruct (is_char c_lt c); [|discriminate].
  destruct s as [|d s']; [discriminate|].
  destruct (not_gt d); [|discriminate].
  destruct (drop_while not_gt s') as [|g rest] eqn:E; [discriminate|].
  pose proof (drop_while_length not_gt s') as H. rewrite E in H.
  assert (Hpos : length (c :: d :: s') - length rest <> 0)
    by (cbn [length] in *; lia).
  congruence.
Qed.

Lemma strip_keeps_no_gt s k :
  has_char c_gt s = false -> has_char c_gt (sub_from re_tag k s) = false.
Proof.
  intros H. destruct (has_char c_gt (sub_from re_tag k s)) eqn:E;
    [|reflexivity].
  apply has_char_in, sub_from_incl, has_char_in in E. congruence.
Qed.

(** Where no tag begins in the text, none begins in the stripped text. *)
Lemma no_tag_stays c s :
  match_len re_tag (c :: s) = None ->
  match_len re_tag (c :: sub_from re_tag 0 s) = None.
Proof.
  intros E. rewrite match_tag_cases in E.
  destruct (is_char c_lt c) eqn:Hc.
  2:{ rewrite match_tag_cases. now rewrite Hc. }
  destruct s as [|d s']; [exact (no_tag_unclosed [] eq_refl c)|].
  destruct (not_gt d) eqn:Hd.
  - destruct (drop_while not_gt s') as [|g rest] eqn:Ed; [|discriminate].
    apply no_tag_unclosed, strip_keeps_no_gt.
    apply has_char_false. cbn [forallb].
    change (not_gt d && forallb not_gt s' = true).
    now rewrite Hd, (drop_while_nil _ _ Ed).
  - unfold not_gt in Hd. apply negb_false_iff in Hd.
    apply is_char_true in Hd. subst d.
    cbn [sub_from].
    assert (E' : match_len re_tag (c_gt :: s') = None)
      by (rewrite match_tag_cases; reflexivity).
    rewrite E'. now apply no_tag_empty.
Qed.

Lemma strip_tags_idem_from s : forall k,
  sub_from re_tag 0 (sub_from re_tag k s) = sub_from re_tag k s.
Proof.
  induction s as [|c s IH]; intros k; [reflexivity|].
  destruct k as [|k]; [|exact (IH k)].
  cbn [sub_from].
  destruct (match_len re_tag (c :: s)) as [[|n]|] eqn:E.
  - now destruct (match_tag_positive c s).
  - apply IH.
  - cbn [sub_from]. rewrite (no_tag_stays _ _ E). now rewrite IH.
Qed.

(** *** [esc] *)

Lemma esc_one_pass text : esc text = flat_map esc_char text.
Proof.
  unfold esc, replace. induction text as [|c s IH]; [reflexivity|].
  cbn [flat_map]. rewrite !flat_map_app, IH. f_equal.
  unfold esc_char.
  destruct (is_char c_amp c) eqn:Ea; [reflexivity|].
  cbn [flat_map app]. rewrite app_nil_r.
  destruct (is_char c_lt c) eqn:El; [reflexivity|].
  cbn [flat_map app]. rewrite app_nil_r. reflexivity.
Qed.

Lemma esc_char_clean c :
  has_char c_lt (esc_char c) = false /\ has_char c_gt (esc_char c) = false.
Proof.
  unfold esc_char.
  destruct (is_char c_amp c); [split; reflexivity|].
  destruct (is_char c_lt c) eqn:El; [split; reflexivity|].
  destruct (is_char c_gt c) eqn:Eg; [split; reflexivity|].
  unfold has_char. cbn [existsb]. now rewrite El, Eg.
Qed.

Lemma esc_clean text :
  has_char c_lt (esc text) = false /\ has_char c_gt (esc text) = false.
Proof.
  rewrite esc_one_pass. induction text as [|c s [IH1 IH2]];
    [split; reflexivity|].
  cbn [flat_map]. rewrite !has_char_app, IH1, IH2.
  destruct (esc_char_clean c) as [-> ->]. split; reflexivity.
Qed.

(** The first character of an escaped character tells whether it was
    escaped. *)
Lemma esc_char_head c :
  (esc_char c = [c] /\ is_char c_amp c = false)
  \/ (exists tail, esc_char c = c_amp :: tail /\ tail <> []).
Proof.
  unfold esc_char.
  destruct (is_char c_amp c) eqn:Ea;
    [right; eexists; split; [reflexivity | discriminate]|].
  destruct (is_char c_lt c);
    [right; eexists; split; [reflexivity | discriminate]|].
  destruct (is_char c_gt c);
    [right; eexists; split; [reflexivity | discriminate]|].
  now left.
Qed.

Lemma strip_esc text : strip_tags (esc text) = esc text.
Proof.
  destruct (esc_clean text) as [Hlt _].
  rewrite <- (app_nil_r (esc text)) at 1.
  rewrite (strip_tags_prefix' _ [] Hlt). apply app_nil_r.
Qed.

Lemma esc_chars_injective a : forall t,
  flat_map esc_char a = flat_map esc_char t -> a = t.
Proof.
  induction a as [|x a IH]; intros [|y t] H.
  - reflexivity.
  - exfalso. cbn [flat_map] in H.
    destruct (esc_char_head y) as [[E _]|(u & E & _)];
      rewrite E in H; discriminate H.
  - exfalso. cbn [flat_map] in H.
    destruct (esc_char_head x) as [[E _]|(u & E & _)];
      rewrite E in H; discriminate H.
  - cbn [flat_map] in H.
    remember (flat_map esc_char a) as A eqn:EA.
    remember (flat_map esc_char t) as B eqn:EB.
    assert (Hrec : A = B -> a = t) by (intros E; apply IH; congruence).
    clear IH EA EB. unfold esc_char in H.
    destruct (is_char c_amp x) eqn:Ax;
      [|destruct (is_char c_lt x) eqn:Lx;
        [|destruct (is_char c_gt x) eqn:Gx]];
    (destruct (is_char c_amp y) eqn:Ay;
      [|destruct (is_char c_lt y) eqn:Ly;
        [|destruct (is_char c_gt y) eqn:Gy]]);
    cbn in H; try discriminate H;
    injection H; intros;
    repeat match goal with
           | Ht : is_char _ _ = true |- _ => apply is_char_true in Ht
           end;
    subst;
    try (f_equal; now apply Hrec);
    exfalso;
    match goal with
    | Hf : is_char _ _ = false |- _ => vm_compute in Hf; discriminate Hf
    end.
Qed.

End MarkupFacts.

(* ================================================================== *)
(** * Further stated properties: escaping and inline markup *)
(* ================================================================== *)

Import Markup MarkupFacts.

(** X1: the text [esc] returns contains neither [<] nor [>]. *)
Theorem esc_no_angle_brackets :
  forall text : str,
    has_char c_lt (esc text) = false /\ has_char c_gt (esc text) = false.
Proof.
  intros text. rewrite esc_one_pass.
  induction text as [|c s [IH1 IH2]]; [split; reflexivity|].
  cbn [flat_map]. rewrite !has_char_app, IH1, IH2.
  destruct (esc_char_clean c) as [-> ->]. split; reflexivity.
Qed.

(** X2: [esc] loses nothing: two texts with the same escaped form are the
    same text. *)
Theorem esc_injective :
  forall a t : str, esc a = esc t -> a = t.
Proof.
  intros a t. rewrite !esc_one_pass. apply esc_chars_injective.
Qed.

Lemma esc_injective_witness :
  esc (lit "a<b") = esc (lit "a<b") /\ lit "a<b" = lit "a<b".
Proof.
  split; [reflexivity|].
  exact (esc_injective (lit "a<b") (lit "a<b") eq_refl).
Defined.

(** X3: stripping tags twice is stripping them once, so the anchor of a
    text is the anchor of its stripped form. *)
Theorem strip_tags_idempotent :
  forall text : str,
    strip_tags (strip_tags text) = strip_tags text
    /\ _make_anchor (strip_tags text) = _make_anchor text.
Proof.
  intros text.
  assert (E : strip_tags (strip_tags text) = strip_tags text)
    by apply strip_tags_idem_from.
  split; [exact E | now apply make_anchor_ext].
Qed.

(** X4: a tag is removed as a whole.  In front of it the text is kept up
    to the first [<]; the tag runs from that [<] to the first [>] behind
    it, provided at least one character stands between them. *)
Theorem strip_tags_removes_tag :
  forall pre body rest : str,
    has_char c_lt pre = false ->
    body <> [] ->
    has_char c_gt body = false ->
    strip_tags (pre ++ c_lt :: body ++ c_gt :: rest)
    = pre ++ strip_tags rest.
Proof.
  intros pre body rest Hpre Hne Hbody.
  (* nothing is deleted in front of the first [<] *)
  rewrite (strip_tags_prefix' _ _ Hpre). f_equal.
  unfold strip_tags, re_sub_delete. cbn [sub_from].
  (* the pattern matches from [<] to the first [>] *)
  rewrite (match_tag body rest Hne Hbody).
  replace (body ++ c_gt :: rest) with ((body ++ [c_gt]) ++ rest)
    by (now rewrite <- app_assoc).
  (* and the characters of the match are skipped *)
  apply sub_from_skip.
Qed.

Lemma strip_tags_removes_tag_witness :
  strip_tags (lit "1. " ++ c_lt :: lit "b" ++ c_gt :: lit "Bold")
  = lit "1. " ++ strip_tags (lit "Bold").
Proof.
  apply strip_tags_removes_tag; [reflexivity | discriminate | reflexivity].
Defined.

(** X5: an escaped text goes through tag stripping unchanged, so no part
    of a text that went through [esc] is ever taken for markup. *)
Theorem strip_tags_esc :
  forall text : str, strip_tags (esc text) = esc text.
Proof.
  intros text. destruct (esc_clean text) as [Hlt _].
  rewrite <- (app_nil_r (esc text)) at 1.
  rewrite (strip_tags_prefix' _ [] Hlt). apply app_nil_r.
Qed.

(** X6: whatever the text, what is left of [mono(text)] once the tags are
    stripped is the escaped text: the font tags go, and nothing of the
    text does. *)
Theorem strip_tags_mono :
  forall text : str,
    strip_tags (mono text) = esc text
    /\ _make_anchor (mono text) = _make_anchor (esc text).
Proof.
  intros text.
  assert (E : strip_tags (mono text) = esc text).
  { change (mono text)
      with ([] ++ c_lt :: (lit "font face=" ++ [c_quote]
                           ++ lit "JetBrainsMono" ++ [c_quote]
                           ++ lit " size=" ++ [c_quote] ++ lit "9"
                           ++ [c_quote])
               ++ c_gt :: (esc text ++ lit "</font>")).
    rewrite strip_tag_removed; [|reflexivity|discriminate|reflexivity].
    destruct (esc_clean text) as [Hlt _].
    cbn [app]. rewrite (strip_tags_prefix' _ _ Hlt).
    replace (strip_tags (lit "</font>")) with (@nil char) by reflexivity.
    apply app_nil_r. }
  split; [exact E|].
  apply make_anchor_ext. now rewrite E, strip_esc.
Qed.

(** X7: for a text without [<], stripping the tags of [b(text)] or
    [i(text)] gives the text back, so a heading in bold or italics has
    the anchor of the plain heading. *)
Theorem strip_tags_bold_italic :
  forall text : str,
    has_char c_lt text = false ->
    strip_tags (b text) = text /\ strip_tags (i text) = text
    /\ _make_anchor (b text) = _make_anchor text
    /\ _make_anchor (i text) = _make_anchor text.
Proof.
  intros text H.
  assert (Hs : strip_tags text = text).
  { rewrite <- (app_nil_r text) at 1.
    rewrite (strip_tags_prefix' _ [] H). apply app_nil_r. }
  assert (Eb : strip_tags (b text) = text).
  { change (b text)
      with ([] ++ c_lt :: lit "b" ++ c_gt :: (text ++ lit "</b>")).
    rewrite strip_tag_removed; [|reflexivity|discriminate|reflexivity].
    cbn [app]. rewrite (strip_tags_prefix' _ _ H).
    replace (strip_tags (lit "</b>")) with (@nil char) by reflexivity.
    apply app_nil_r. }
  assert (Ei : strip_tags (i text) = text).
  { change (i text)
      with ([] ++ c_lt :: lit "i" ++ c_gt :: (text ++ lit "</i>")).
    rewrite strip_tag_removed; [|reflexivity|discriminate|reflexivity].
    cbn [app]. rewrite (strip_tags_prefix' _ _ H).
    replace (strip_tags (lit "</i>")) with (@nil char) by reflexivity.
    apply app_nil_r. }
  repeat split; try assumption; apply make_anchor_ext; congruence.
Qed.

Lemma strip_tags_bold_italic_witness :
  has_char c_lt (lit "2.1 The Quantum Threat") = false /\
  _make_anchor (b (lit "2.1 The Quantum Threat"))
  = _make_anchor (lit "2.1 The Quantum Threat").
Proof.
  split; [reflexivity|].
  exact (proj1 (proj2 (proj2 (strip_tags_bold_italic
                                (lit "2.1 The Quantum Threat") eq_refl)))).
Defined.

(* ================================================================== *)
(** * Further properties of anchors *)
(* ================================================================== *)

Module AnchorMore.
Import Text Re Anchor Toc Markup TextFacts ReFacts AnchorFacts MarkupFacts.

Lemma upper_not_char a c :
  ascii_upper a = false -> ascii_upper c = true -> is_char a c = false.
Proof.
  intros Ha Hc. destruct (is_char a c) eqn:E; [|reflexivity].
  apply is_char_true in E. subst. congruence.
Qed.

(** The characters of an anchor, whatever the text: an ASCII letter or
    digit or an underscore, a decimal digit, or a white-space character
    other than the plain space. *)
Lemma anchor_chars text c :
  In c (_make_anchor text) ->
  anchor_char c = true \/ isdecimal c = true
  \/ (isspace c = true /\ is_char c_space c = false).
Proof.
  destruct (make_anchor_cases text)
    as (name & -> & [(tok & Ht & ->)|[_ ->]]); intros Hc;
    apply in_app_or in Hc as [Hc|Hc].
  - left. cbn in Hc. repeat (destruct Hc as [<-|Hc]; [reflexivity|]).
    destruct Hc.
  - unfold normalize_token in Hc.
    apply in_flat_map in Hc as (c0 & Hc0 & Hc).
    apply rstrip_by_incl in Hc0. unfold normalize_char in Hc.
    destruct (is_char c_dot c0 || is_char c_space c0) eqn:E1.
    { destruct Hc as [<-|[]]. now left. }
    destruct (is_char c_colon c0) eqn:E2; [destruct Hc|].
    destruct Hc as [<-|[]].
    apply orb_false_iff in E1 as [Edot Espace].
    destruct (token_chars _ _ _ Ht Hc0) as [H|[H|[H|H]]].
    + right. now left.
    + unfold dot_or_colon in H. now rewrite Edot, E2 in H.
    + right. right. now split.
    + left. unfold anchor_char, ascii_alnum.
      apply orb_true_iff in H as [H|H]; rewrite H; now rewrite ?orb_true_r.
  - left. cbn in Hc. repeat (destruct Hc as [<-|Hc]; [reflexivity|]).
    destruct Hc.
  - left.
    exact (proj1 (forallb_forall _ _)
             (word_anchor_chars (strip_tags text)) c Hc).
Qed.

(** A character that is none of these does not occur in an anchor. *)
Lemma anchor_avoids x text :
  anchor_char x = false -> isdecimal x = false ->
  (isspace x && negb (is_char c_space x)) = false ->
  has_char x (_make_anchor text) = false.
Proof.
  intros H1 H2 H3.
  destruct (has_char x (_make_anchor text)) eqn:E; [|reflexivity].
  apply has_char_in in E.
  destruct (anchor_chars _ _ E) as [H|[H|[Ha Hb]]]; try congruence.
  now rewrite Ha, Hb in H3.
Qed.

Lemma drop_while_snoc p l d :
  p d = false -> exists l', drop_while p (l ++ [d]) = l' ++ [d].
Proof.
  intros Hd. induction l as [|c l IH]; cbn.
  - rewrite Hd. now exists [].
  - destruct (p c); [exact IH|]. now exists (c :: l).
Qed.

(** Trimming on the right keeps a first character that is not trimmed. *)
Lemma rstrip_by_head p d s :
  p d = false -> exists t, rstrip_by p (d :: s) = d :: t.
Proof.
  intros Hd. unfold rstrip_by. cbn [rev].
  destruct (drop_while_snoc p (rev s) d Hd) as [l' ->].
  exists (rev l'). rewrite rev_app_distr. reflexivity.
Qed.

Lemma flat_map_ext_on (f g : char -> str) l :
  (forall c, In c l -> f c = g c) -> flat_map f l = flat_map g l.
Proof.
  induction l as [|c l IH]; intros H; [reflexivity|].
  cbn [flat_map]. rewrite (H c) by now left.
  rewrite IH; [reflexivity|]. intros x Hx. apply H. now right.
Qed.

(** On a dotted numeral the anchor rule of the table of contents and the
    normalisation of [_make_anchor] are the same function. *)
Lemma numeral_rules_agree ds more :
  ds <> [] -> forallb isdecimal ds = true ->
  forallb digit_or_dot more = true ->
  toc_anchor (ds ++ c_dot :: more)
  = sec_ ++ normalize_token (ds ++ c_dot :: more).
Proof.
  intros Hne Hds Hmore. unfold toc_anchor. cbv zeta.
  destruct ds as [|d ds]; [congruence|].
  cbn [forallb] in Hds. apply andb_true_iff in Hds as [Hd Hds].
  assert (Hdot : is_char c_dot d = false) by now apply decimal_not_dot.
  destruct (rstrip_by_head (is_char c_dot) d (ds ++ c_dot :: more) Hdot)
    as [t Et].
  unfold rstrip_char. cbn [app]. rewrite Et.
  assert (HA : str_eqb (d :: t) (lit "A") = false).
  { cbn [str_eqb lit list_ascii_of_string map].
    apply andb_false_iff. left. apply N.eqb_neq. intros E.
    rewrite E in Hd. vm_compute in Hd. discriminate Hd. }
  assert (HB : str_eqb (d :: t) (lit "B") = false).
  { cbn [str_eqb lit list_ascii_of_string map].
    apply andb_false_iff. left. apply N.eqb_neq. intros E.
    rewrite E in Hd. vm_compute in Hd. discriminate Hd. }
  rewrite HA, HB. cbn [orb]. f_equal.
  unfold normalize_token, rstrip_char. cbn [app]. rewrite Et.
  unfold replace. apply flat_map_ext_on. intros c Hc.
  assert (Hin : In c (d :: ds ++ c_dot :: more)).
  { apply (rstrip_by_incl (is_char c_dot)). now rewrite Et. }
  unfold normalize_char.
  destruct (is_char c_dot c) eqn:Ec; [reflexivity|].
  assert (Hdec : isdecimal c = true).
  { destruct Hin as [<-|Hin]; [exact Hd|].
    apply in_app_or in Hin as [Hin|[<-|Hin]].
    - now apply (proj1 (forallb_forall _ _) Hds).
    - now rewrite is_char_refl in Ec.
    - apply (proj1 (forallb_forall _ _) Hmore) in Hin.
      unfold digit_or_dot in Hin. now rewrite Ec, orb_false_r in Hin. }
  rewrite (decimal_not_char c_space c eq_refl Hdec).
  now rewrite (decimal_not_char c_colon c eq_refl Hdec).
Qed.

(** The anchor of a heading [Appendix <letter>:<rest>]. *)
Lemma appendix_heading_anchor letter rest :
  ascii_upper letter = true ->
  _make_anchor (lit "Appendix " ++ [letter; c_colon] ++ rest)
  = lit "sec_Appendix_" ++ [letter].
Proof.
  intros Hu.
  assert (Hlt : is_char c_lt letter = false)
    by now apply (upper_not_char c_lt letter).
  assert (Ht : numbering_token
                 (lit "Appendix" ++ [c_space] ++ [letter; c_colon])
                 (strip_tags (lit "Appendix " ++ [letter; c_colon] ++ rest))).
  { rewrite strip_tags_prefix' by reflexivity.
    rewrite (strip_tags_prefix' [letter; c_colon] rest)
      by (unfold has_char; cbn [existsb]; now rewrite Hlt).
    apply (token_appendix [c_space] letter c_colon (strip_tags rest));
      try reflexivity; [discriminate | exact Hu]. }
  rewrite (make_anchor_token _ _ Ht). unfold normalize_token.
  assert (Er : rstrip_char c_dot
                 (lit "Appendix" ++ [c_space] ++ [letter; c_colon])
               = lit "Appendix " ++ [letter] ++ [c_colon]).
  { unfold rstrip_char.
    rewrite <- (app_nil_r (lit "Appendix" ++ [c_space] ++ [letter; c_colon])) at 1.
    now rewrite rstrip_by_app. }
  rewrite Er, !flat_map_app.
  replace (flat_map normalize_char (lit "Appendix "))
    with (lit "Appendix_") by reflexivity.
  replace (flat_map normalize_char [c_colon]) with (@nil char)
    by reflexivity.
  cbn [flat_map]. unfold normalize_char.
  rewrite (upper_not_char c_dot letter eq_refl Hu).
  rewrite (upper_not_char c_space letter eq_refl Hu).
  rewrite (upper_not_char c_colon letter eq_refl Hu).
  reflexivity.
Qed.

Lemma all_distinct_NoDup l : all_distinct l = true -> NoDup l.
Proof.
  induction l as [|a l IH]; cbn; intros H; constructor.
  - apply andb_true_iff in H as [H _]. apply negb_true_iff in H.
    intros Hin.
    assert (E : existsb (str_eqb a) l = true).
    { apply existsb_exists. exists a. split; [exact Hin|].
      clear. induction a as [|x a IHa]; cbn; [reflexivity|].
      now rewrite N.eqb_refl. }
    congruence.
  - apply andb_true_iff in H as [_ H]. now apply IH.
Qed.

End AnchorMore.

(* ================================================================== *)
(** * Further stated properties: anchors *)
(* ================================================================== *)

Import AnchorMore.

(** X8: whatever the text, its anchor contains no double quote, no [<],
    no [>], no ampersand, no dot, no colon and no plain space; so the
    attribute [name] of the title markup is always closed by the quote
    the script writes. *)
Theorem anchor_never_breaks_attribute :
  forall text : str,
    has_char c_quote (_make_anchor text) = false
    /\ has_char c_lt (_make_anchor text) = false
    /\ has_char c_gt (_make_anchor text) = false
    /\ has_char c_amp (_make_anchor text) = false
    /\ has_char c_dot (_make_anchor text) = false
    /\ has_char c_colon (_make_anchor text) = false
    /\ has_char c_space (_make_anchor text) = false.
Proof.
  intros text. repeat split; now apply anchor_avoids.
Qed.

(** X9: the anchor tag a heading function puts in front of the title does
    not change what the title derives: stripping the tags of the title
    markup gives the stripped title, and deriving an anchor from the
    markup gives the anchor it already carries. *)
Theorem anchored_title_rederives :
  forall text : str,
    strip_tags (Flow.anchored (_make_anchor text) text) = strip_tags text
    /\ _make_anchor (Flow.anchored (_make_anchor text) text)
       = _make_anchor text.
Proof.
  intros text.
  assert (Hgt : has_char c_gt (_make_anchor text) = false)
    by now apply anchor_avoids.
  assert (E : strip_tags (Flow.anchored (_make_anchor text) text)
              = strip_tags text).
  { unfold Flow.anchored.
    replace (lit "<a name=" ++ [c_quote] ++ _make_anchor text ++ [c_quote]
             ++ lit "/>" ++ text)
      with ([] ++ c_lt :: (lit "a name=" ++ [c_quote] ++ _make_anchor text
                           ++ [c_quote] ++ lit "/")
               ++ c_gt :: text)
      by (cbn [app lit list_ascii_of_string map];
          rewrite <- !app_assoc; reflexivity).
    rewrite strip_tag_removed; [reflexivity | reflexivity | discriminate |].
    rewrite !has_char_app, Hgt. reflexivity. }
  split; [exact E | now apply make_anchor_ext].
Qed.

(** X10: the two anchor computations agree on every dotted number, not
    only on those of [toc_entries]: for a number made of digits, a dot
    and any further digits and dots, the anchor of the table-of-contents
    loop is the anchor [_make_anchor] gives the heading made of the
    number, a space and any title. *)
Theorem numbered_entry_agreement :
  forall ds more title : str,
    ds <> [] ->
    forallb isdecimal ds = true ->
    forallb digit_or_dot more = true ->
    toc_anchor (ds ++ c_dot :: more)
    = _make_anchor ((ds ++ c_dot :: more) ++ c_space :: title).
Proof.
  intros ds more title Hne Hds Hmore.
  rewrite (numeral_rules_agree ds more Hne Hds Hmore).
  symmetry. apply make_anchor_token.
  assert (Hlt : has_char c_lt ((ds ++ c_dot :: more) ++ [c_space]) = false).
  { apply has_char_false. rewrite !forallb_app. cbn [forallb].
    rewrite !andb_true_iff. repeat split; try reflexivity.
    - apply forallb_forall. intros c Hc.
      apply (proj1 (forallb_forall _ _) Hds) in Hc.
      now rewrite (decimal_not_char c_lt c eq_refl Hc).
    - apply forallb_forall. intros c Hc.
      apply (proj1 (forallb_forall _ _) Hmore) in Hc.
      unfold digit_or_dot in Hc. apply orb_true_iff in Hc as [Hc|Hc].
      + now rewrite (decimal_not_char c_lt c eq_refl Hc).
      + apply is_char_true in Hc. now subst. }
  replace ((ds ++ c_dot :: more) ++ c_space :: title)
    with (((ds ++ c_dot :: more) ++ [c_space]) ++ title)
    by (now rewrite <- app_assoc).
  rewrite (strip_tags_prefix' _ _ Hlt).
  rewrite <- !app_assoc. cbn [app].
  now apply (token_numeral ds more (c_space :: strip_tags title)).
Qed.

Lemma numbered_entry_agreement_witness :
  lit "10" <> [] /\
  toc_anchor (lit "10.4") = _make_anchor (lit "10.4 The <b>C1</b> Fix").
Proof.
  split; [discriminate|].
  exact (numbered_entry_agreement (lit "10") (lit "4")
           (lit "The <b>C1</b> Fix")
           ltac:(discriminate) eq_refl eq_refl).
Defined.

(** X11: the appendix rule of the table of contents knows the letters A
    and B only.  For any other capital letter the loop computes [sec_]
    and the letter, while the heading [Appendix <letter>:<rest>] carries
    [sec_Appendix_] and the letter: the link of such an entry would not
    reach its heading. *)
Theorem appendix_rule_limited_to_A_B :
  forall (letter : char) (rest : str),
    ascii_upper letter = true ->
    letter <> N_of_ascii "A" -> letter <> N_of_ascii "B" ->
    toc_anchor [letter; c_dot] = sec_ ++ [letter]
    /\ _make_anchor (lit "Appendix " ++ [letter; c_colon] ++ rest)
       = lit "sec_Appendix_" ++ [letter]
    /\ toc_anchor [letter; c_dot]
       <> _make_anchor (lit "Appendix " ++ [letter; c_colon] ++ rest).
Proof.
  intros letter rest Hu HA HB.
  assert (E1 : toc_anchor [letter; c_dot] = sec_ ++ [letter]).
  { unfold toc_anchor, rstrip_char, rstrip_by. cbn [rev app drop_while].
    rewrite is_char_refl, (upper_not_char c_dot letter eq_refl Hu).
    cbn [rev app str_eqb lit list_ascii_of_string map].
    apply N.eqb_neq in HA, HB. rewrite HA, HB. cbn [andb orb].
    unfold replace. cbn [flat_map].
    now rewrite (upper_not_char c_dot letter eq_refl Hu). }
  assert (E2 := appendix_heading_anchor letter rest Hu).
  split; [exact E1|]. split; [exact E2|].
  rewrite E1, E2. cbn. intros H. injection H as H.
  apply in_range_spec in Hu. subst letter. vm_compute in Hu.
  destruct Hu as [H _]. now apply H.
Qed.

Lemma appendix_rule_limited_to_A_B_witness :
  ascii_upper (N_of_ascii "C") = true /\
  toc_anchor (lit "C.") = lit "sec_C" /\
  _make_anchor (lit "Appendix C: Glossary") = lit "sec_Appendix_C".
Proof.
  split; [reflexivity|].
  destruct (appendix_rule_limited_to_A_B (N_of_ascii "C") (lit " Glossary")
              eq_refl ltac:(discriminate) ltac:(discriminate))
    as (E1 & E2 & _).
  split; [exact E1 | exact E2].
Defined.

(** X12: the anchor of a numbered heading depends on the numbering token
    alone: two texts that begin, once stripped, with the same token have
    the same anchor, whatever their titles.  Anchors are not checked for
    collisions. *)
Theorem same_number_same_anchor :
  forall text1 text2 tok : str,
    numbering_token tok (strip_tags text1) ->
    numbering_token tok (strip_tags text2) ->
    _make_anchor text1 = _make_anchor text2.
Proof.
  intros text1 text2 tok H1 H2.
  now rewrite (make_anchor_token _ _ H1), (make_anchor_token _ _ H2).
Qed.

Lemma same_number_same_anchor_witness :
  _make_anchor (lit "9.7 Message Complexity")
  = _make_anchor (lit "9.7 Complaint and Abort Protocol").
Proof.
  apply (same_number_same_anchor
           (lit "9.7 Message Complexity")
           (lit "9.7 Complaint and Abort Protocol") (lit "9.7")).
  - apply (token_numeral (lit "9") (lit "7") (lit " Message Complexity"));
      [discriminate | reflexivity | reflexivity | reflexivity].
  - apply (token_numeral (lit "9") (lit "7")
             (lit " Complaint and Abort Protocol"));
      [discriminate | reflexivity | reflexivity | reflexivity].
Defined.

(** X13: in the script as it stands no two headings share an anchor: the
    124 anchor names the body carries are pairwise distinct, and so are
    the 66 link targets of the table of contents. *)
Theorem script_anchors_distinct :
  NoDup emitted_anchors /\ NoDup (map entry_anchor toc_entries).
Proof.
  split; apply all_distinct_NoDup; vm_compute; reflexivity.
Qed.

(* ================================================================== *)
(** * Further properties of the buffered heading system *)
(* ================================================================== *)

Module FlowMore.
Import Text Re Anchor Flow FlowFacts.

(** A content call hands its block to [_flush_heading_with]. *)
Lemma content_step c P st :
  content_block (cw st) c = Some P -> step c st = _flush_heading_with P st.
Proof.
  intros H. destruct c; try discriminate H; cbn in H;
    injection H as <-; reflexivity.
Qed.

Lemma content_not_group w c P :
  content_block w c = Some P -> is_group P = false.
Proof.
  intros H. destruct c; try discriminate H; cbn in H;
    injection H as <-; reflexivity.
Qed.

Lemma content_not_title w c P :
  content_block w c = Some P -> is_title P = false.
Proof.
  intros H. destruct c; try discriminate H; cbn in H;
    injection H as <-; reflexivity.
Qed.

(** The three kinds of calls, told apart by the two tests. *)
Lemma call_kinds c st :
  (is_heading_call c = true /\
   exists level text,
     step c st = heading level text st
     /\ title_of_call c = [title_block level text])
  \/ (is_heading_call c = false /\ is_spacer_call c = true /\
      exists h, c = call_spacer h)
  \/ (is_heading_call c = false /\ is_spacer_call c = false /\
      title_of_call c = [] /\
      exists P, content_block (cw st) c = Some P).
Proof.
  destruct c;
    try (right; right; repeat split; eexists; reflexivity);
    try (right; left; repeat split; eexists; reflexivity).
  - left. split; [reflexivity|]. exists L1, text. now split.
  - left. split; [reflexivity|]. exists L2, text. now split.
  - left. split; [reflexivity|]. exists L3, text. now split.
Qed.

Lemma finalize_story st :
  story (finalize st) = story st ++ _pending_heading st.
Proof. unfold finalize. now rewrite flush_heading_spec. Qed.

Lemma count_groups_app s1 s2 :
  count_groups (s1 ++ s2) = count_groups s1 + count_groups s2.
Proof. unfold count_groups. now rewrite filter_app, length_app. Qed.

Lemma count_groups_buffered w level text :
  count_groups (buffered_blocks w level text) = 0.
Proof. now destruct level. Qed.

Lemma count_groups_pending st :
  single_occupancy st -> count_groups (_pending_heading st) = 0.
Proof.
  intros [->|(level & text & ->)]; [reflexivity|].
  apply count_groups_buffered.
Qed.

Lemma count_groups_direct level : count_groups (direct_blocks level) = 0.
Proof. now destruct level. Qed.

(** Groups in the stream and bonds in the calls, step by step. *)
Lemma run_count_groups calls : forall st,
  single_occupancy st ->
  count_groups (story (run calls st)) + count_groups (_pending_heading (run calls st))
  = count_groups (story st)
    + bonds (is_nonempty (_pending_heading st)) calls.
Proof.
  induction calls as [|c calls IH]; intros st Hocc.
  - cbn [run fold_left bonds]. rewrite (count_groups_pending st Hocc). lia.
  - rewrite run_cons, (IH _ (step_single_occupancy c st)). cbn [bonds].
    destruct (call_kinds c st)
      as [(Hh & level & text & E & _)
         |[(Hh & Hs & h & ->)|(Hh & Hs & _ & P & HP)]].
    + rewrite Hh, E, heading_spec. cbn [story _pending_heading].
      rewrite !count_groups_app, (count_groups_pending st Hocc),
        count_groups_direct.
      replace (is_nonempty (buffered_blocks (cw st) level text)) with true
        by now destruct level.
      lia.
    + cbn [is_heading_call is_spacer_call step]. rewrite spacer_spec.
      cbn [story _pending_heading is_nonempty].
      rewrite !count_groups_app, (count_groups_pending st Hocc).
      cbn. lia.
    + rewrite Hh, Hs, (content_step c P st HP), flush_heading_with_spec.
      cbn [story _pending_heading is_nonempty].
      rewrite count_groups_app.
      destruct (_pending_heading st) as [|g p]; cbn [is_nonempty].
      * unfold count_groups at 2. cbn [filter].
        rewrite (content_not_group _ _ _ HP). cbn. lia.
      * cbn. lia.
Qed.

Lemma well_formed_buffered w level text :
  Forall (well_formed w) (buffered_blocks w level text).
Proof. destruct level; repeat constructor. Qed.

Lemma well_formed_pending st :
  single_occupancy st -> Forall (well_formed (cw st)) (_pending_heading st).
Proof.
  intros [->|(level & text & ->)]; [constructor|].
  apply well_formed_buffered.
Qed.

Lemma step_well_formed c st :
  single_occupancy st ->
  Forall (well_formed (cw st)) (story st) ->
  Forall (well_formed (cw st)) (story (step c st)).
Proof.
  intros Hocc Hst.
  destruct (call_kinds c st)
    as [(_ & level & text & E & _)
       |[(_ & _ & h & ->)|(_ & _ & _ & P & HP)]].
  - rewrite E, heading_spec. cbn [story].
    rewrite !Forall_app. repeat split; try assumption.
    + now apply well_formed_pending.
    + destruct level; repeat constructor.
  - cbn [step]. rewrite spacer_spec. cbn [story].
    rewrite !Forall_app. repeat split; try assumption.
    + now apply well_formed_pending.
    + repeat constructor.
  - rewrite (content_step c P st HP), flush_heading_with_spec. cbn [story].
    rewrite Forall_app. split; [assumption|]. constructor; [|constructor].
    pose proof (content_not_group _ _ _ HP) as HG.
    destruct Hocc as [->|(level & text & E)].
    + destruct P; try exact I. discriminate HG.
    + rewrite E.
      destruct level; cbn;
        [exists L1, text, P | exists L2, text, P | exists L3, text, P];
        (split; [reflexivity | exact HG]).
Qed.

Lemma run_well_formed calls : forall st,
  single_occupancy st ->
  Forall (well_formed (cw st)) (story st) ->
  Forall (well_formed (cw st)) (story (run calls st)).
Proof.
  induction calls as [|c calls IH]; intros st Hocc Hst; [exact Hst|].
  rewrite run_cons. rewrite <- (step_cw c st).
  apply IH; [apply step_single_occupancy|].
  rewrite step_cw. now apply step_well_formed.
Qed.

(** The titles held by the stream and the buffer together. *)
Lemma titles_buffered w level text :
  filter is_title (buffered_blocks w level text) = [title_block level text].
Proof. now destruct level. Qed.

Lemma step_titles c st :
  single_occupancy st ->
  filter is_title (held (step c st))
  = filter is_title (held st) ++ title_of_call c.
Proof.
  intros Hocc. rewrite (step_held c st Hocc), filter_app. f_equal.
  destruct c; reflexivity.
Qed.

Lemma run_titles calls : forall st,
  single_occupancy st ->
  filter is_title (held (run calls st))
  = filter is_title (held st) ++ flat_map title_of_call calls.
Proof.
  induction calls as [|c calls IH]; intros st Hocc.
  - cbn. now rewrite app_nil_r.
  - rewrite run_cons, (IH _ (step_single_occupancy c st)),
      (step_titles c st Hocc).
    cbn [flat_map]. now rewrite <- app_assoc.
Qed.

Lemma held_finalize st :
  single_occupancy st -> blocks (story (finalize st)) = held st.
Proof.
  intros Hocc. rewrite finalize_story, blocks_app. unfold held. f_equal.
  destruct Hocc as [->|(level & text & ->)]; [reflexivity|].
  apply blocks_ungrouped, buffered_ungrouped.
Qed.

End FlowMore.

(* ================================================================== *)
(** * Further stated properties: the buffered heading system *)
(* ================================================================== *)

Import FlowMore.

(** X14: a content call right after a heading call of any level, whatever
    was buffered before: the old buffer and the blocks the heading sends
    straight to the stream are appended one by one, then one group made
    of the heading's buffered blocks and the content block; the buffer is
    left empty. *)
Theorem heading_then_content_bonds :
  forall (st : Script) (level : Level) (text : str) (c : Call)
         (P : Flowable),
    content_block (cw st) c = Some P ->
    story (step c (heading level text st))
    = story st ++ _pending_heading st ++ direct_blocks level
      ++ [KeepTogether (buffered_blocks (cw st) level text ++ [P])]
    /\ _pending_heading (step c (heading level text st)) = [].
Proof.
  intros st level text c P HP.
  assert (E : step c (heading level text st)
              = _flush_heading_with P (heading level text st)).
  { apply content_step. now rewrite heading_spec. }
  rewrite E, flush_heading_with_spec, heading_spec.
  cbn [story _pending_heading cw]. split; [|reflexivity].
  rewrite <- !app_assoc. do 3 f_equal. now destruct level.
Qed.

Lemma heading_then_content_bonds_witness :
  content_block sample_width (call_body (lit "P"))
  = Some (Paragraph (lit "P") body_style) /\
  story (run [call_sub_sub_heading (lit "Theorem 1: Correctness");
              call_body (lit "P")]
             (create_document sample_width))
  = [ KeepTogether
        [ Spacer 1 12;
          title_block L3 (lit "Theorem 1: Correctness");
          Spacer 1 4;
          Paragraph (lit "P") body_style ] ].
Proof.
  split; [reflexivity|].
  exact (proj1 (heading_then_content_bonds
                  (create_document sample_width) L3
                  (lit "Theorem 1: Correctness") (call_body (lit "P"))
                  (Paragraph (lit "P") body_style) eq_refl)).
Defined.

(** X15: only the first content block after a heading is bonded.  After
    a call that is not a heading call the buffer is empty, so the block
    of a content call that comes next is appended to the stream on its
    own. *)
Theorem content_after_non_heading_stands_alone :
  forall (st : Script) (c1 c2 : Call) (P : Flowable),
    is_heading_call c1 = false ->
    content_block (cw st) c2 = Some P ->
    story (run [c1; c2] st) = story (step c1 st) ++ [P]
    /\ _pending_heading (run [c1; c2] st) = [].
Proof.
  intros st c1 c2 P Hh HP.
  assert (Hempty : _pending_heading (step c1 st) = []).
  { destruct (call_kinds c1 st)
      as [(Hh' & _)|[(_ & _ & h & ->)|(_ & _ & _ & P1 & HP1)]].
    - congruence.
    - cbn [step]. now rewrite spacer_spec.
    - now rewrite (content_step c1 P1 st HP1), flush_heading_with_spec. }
  rewrite !run_cons. cbn [run fold_left].
  rewrite (content_step c2 P (step c1 st))
    by (now rewrite step_cw).
  rewrite flush_heading_with_spec, Hempty. split; reflexivity.
Qed.

Lemma content_after_non_heading_stands_alone_witness :
  story (run [call_sub_heading (lit "2.1 T"); call_body (lit "P");
              call_code (lit "x") (lit "python")]
             (create_document sample_width))
  = [ KeepTogether [ Spacer 1 16; title_block L2 (lit "2.1 T"); Spacer 1 6;
                     Paragraph (lit "P") body_style ];
      CodeBlock (lit "x") (lit "python") ].
Proof.
  exact (proj1 (content_after_non_heading_stands_alone
                  (step (call_sub_heading (lit "2.1 T"))
                        (create_document sample_width))
                  (call_body (lit "P"))
                  (call_code (lit "x") (lit "python"))
                  (CodeBlock (lit "x") (lit "python")) eq_refl eq_refl)).
Defined.

(** X16: the stream is append-only.  Whatever calls follow, and the final
    flush with them, what the stream held after the first calls is still
    there, in front, unchanged. *)
Theorem stream_append_only :
  forall (st : Script) (calls1 calls2 : list Call),
    exists more : list Flowable,
      story (finalize (run (calls1 ++ calls2) st))
      = story (run calls1 st) ++ more.
Proof.
  intros st calls1 calls2. rewrite run_app, finalize_story.
  destruct (run_story_grows calls2 (run calls1 st)) as [more ->].
  eexists. now rewrite <- app_assoc.
Qed.

(** X17: a stream that holds only single blocks and groups made of one
    heading's buffered blocks and one content block stays so: the system
    never nests a group in a group, never emits a group without a
    content block, and never puts two content blocks or two headings in
    one group. *)
Theorem groups_stay_well_formed :
  forall (st : Script) (calls : list Call),
    single_occupancy st ->
    Forall (well_formed (cw st)) (story st) ->
    Forall (well_formed (cw st)) (story (finalize (run calls st))).
Proof.
  intros st calls Hocc Hst. rewrite finalize_story, Forall_app. split.
  - now apply run_well_formed.
  - rewrite <- (run_cw calls st).
    apply well_formed_pending. now apply run_single_occupancy.
Qed.

Lemma groups_stay_well_formed_witness :
  Forall (well_formed sample_width)
    (story (finalize
              (run [call_section_heading (lit "2. Introduction");
                    call_sub_heading (lit "2.1 T"); call_body (lit "P");
                    call_spacer 8; call_sub_heading (lit "2.2 U")]
                   (create_document sample_width)))).
Proof.
  apply (groups_stay_well_formed (create_document sample_width)).
  - left. reflexivity.
  - constructor.
Defined.

(** X18: the number of groups the calls add to the stream is the number
    of content calls that come right after a heading call (counting a
    first content call when a heading was already waiting).  A spacer or
    a second heading in between leaves the heading unbonded. *)
Theorem groups_count_bonds :
  forall (st : Script) (calls : list Call),
    single_occupancy st ->
    count_groups (story (finalize (run calls st)))
    = count_groups (story st)
      + bonds (is_nonempty (_pending_heading st)) calls.
Proof.
  intros st calls Hocc.
  rewrite finalize_story, count_groups_app.
  apply (run_count_groups calls st Hocc).
Qed.

Lemma groups_count_bonds_witness :
  count_groups
    (story (finalize
              (run [call_section_heading (lit "2. Introduction");
                    call_sub_heading (lit "2.1 T"); call_body (lit "P");
                    call_sub_heading (lit "2.2 U"); call_spacer 8;
                    call_body (lit "Q")]
                   (create_document sample_width))))
  = 1.
Proof.
  exact (groups_count_bonds (create_document sample_width)
           [call_section_heading (lit "2. Introduction");
            call_sub_heading (lit "2.1 T"); call_body (lit "P");
            call_sub_heading (lit "2.2 U"); call_spacer 8;
            call_body (lit "Q")]
           (or_introl eq_refl)).
Defined.

(** X19: every heading call leaves exactly one title paragraph in the
    output, in the order of the calls, and that paragraph carries the
    anchor [_make_anchor] derives from the heading text; no other call
    adds a paragraph in a heading style. *)
Theorem titles_follow_heading_calls :
  forall (st : Script) (calls : list Call),
    _pending_heading st = [] ->
    filter is_title (blocks (story (finalize (run calls st))))
    = filter is_title (blocks (story st)) ++ flat_map title_of_call calls.
Proof.
  intros st calls Hempty.
  assert (Hocc : single_occupancy st) by now left.
  rewrite (held_finalize _ (run_single_occupancy calls st Hocc)).
  rewrite (run_titles calls st Hocc). unfold held.
  now rewrite Hempty, app_nil_r.
Qed.

Lemma titles_follow_heading_calls_witness :
  filter is_title
    (blocks (story (finalize
                      (run [call_section_heading (lit "2. Introduction");
                            call_body (lit "P");
                            call_sub_heading (lit "2.1 T")]
                           (create_document sample_width)))))
  = [ Paragraph (anchored (lit "sec_2") (lit "2. Introduction")) h1;
      Paragraph (anchored (lit "sec_2_1") (lit "2.1 T")) h2 ].
Proof.
  exact (titles_follow_heading_calls (create_document sample_width)
           [call_section_heading (lit "2. Introduction");
            call_body (lit "P"); call_sub_heading (lit "2.1 T")]
           eq_refl).
Defined.

(* ================================================================== *)
(** * Further properties: the rows of the table of contents *)
(* ================================================================== *)

Module TocMore.
Import Text Re Anchor Toc TocLoop Markup TextFacts MarkupFacts.

Lemma toc_anchor_no_gt num :
  has_char c_gt num = false -> has_char c_gt (toc_anchor num) = false.
Proof.
  intros H. destruct (has_char c_gt (toc_anchor num)) eqn:E; [|reflexivity].
  exfalso. apply has_char_in in E.
  assert (Hnum : ~ In c_gt (rstrip_char c_dot num)).
  { intros Hin. apply rstrip_by_incl, has_char_in in Hin. congruence. }
  unfold toc_anchor in E. cbv zeta in E.
  destruct (str_eqb (rstrip_char c_dot num) (lit "A")
            || str_eqb (rstrip_char c_dot num) (lit "B"));
    apply in_app_or in E as [E|E]; try contradiction.
  - cbn in E. repeat (destruct E as [E|E]; [discriminate E|]). exact E.
  - cbn in E. repeat (destruct E as [E|E]; [discriminate E|]). exact E.
  - unfold replace in E. apply in_flat_map in E as (c0 & Hc0 & E).
    destruct (is_char c_dot c0).
    + destruct E as [E|[]]. discriminate E.
    + destruct E as [E|[]]. rewrite E in Hc0. contradiction.
Qed.

(** One hyperlink, once the tags are stripped, is its label. *)
Lemma strip_link anchor colour label rest :
  has_char c_gt anchor = false ->
  has_char c_gt colour = false ->
  has_char c_lt label = false ->
  strip_tags (link anchor colour label ++ rest) = label ++ strip_tags rest.
Proof.
  intros Ha Hc Hl. unfold link.
  replace ((lit "<a href=" ++ [c_quote] ++ lit "#" ++ anchor ++ [c_quote]
            ++ lit " color=" ++ [c_quote] ++ colour ++ [c_quote] ++ lit ">"
            ++ label ++ lit "</a>") ++ rest)
    with ([] ++ c_lt :: (lit "a href=" ++ [c_quote] ++ lit "#" ++ anchor
                         ++ [c_quote] ++ lit " color=" ++ [c_quote]
                         ++ colour ++ [c_quote])
             ++ c_gt :: (label ++ c_lt :: lit "/a" ++ c_gt :: rest))
    by (cbn [app lit list_ascii_of_string map];
        repeat (rewrite <- app_assoc; cbn [app]); reflexivity).
  rewrite strip_tag_removed; [|reflexivity|discriminate|].
  - cbn [app]. now rewrite strip_tag_removed.
  - rewrite !has_char_app, Ha, Hc. reflexivity.
Qed.

End TocMore.

Import TocLoop TocMore.

(** X20: what a row of the table of contents shows.  When the number and
    the title contain no [<], and the number and the two colour values no
    [>], the row markup without its tags is the number, three spaces and
    the title: the four tags are all that is taken for markup. *)
Theorem toc_row_shows_number_and_title :
  forall (orange primary num title : str) (is_sub : bool),
    has_char c_gt orange = false ->
    has_char c_gt primary = false ->
    has_char c_lt num = false ->
    has_char c_gt num = false ->
    has_char c_lt title = false ->
    strip_tags (link_text orange primary (num, title, is_sub))
    = num ++ lit "   " ++ title.
Proof.
  intros orange primary num title is_sub Ho Hp Hn1 Hn2 Ht.
  pose proof (toc_anchor_no_gt num Hn2) as Ha.
  unfold link_text.
  rewrite (strip_link _ _ _ _ Ha Ho Hn1). f_equal.
  rewrite (strip_tags_prefix' (lit "   ") _ eq_refl). f_equal.
  rewrite <- (app_nil_r (link (toc_anchor num) primary title)).
  rewrite (strip_link _ _ _ _ Ha Hp Ht). apply app_nil_r.
Qed.

Lemma toc_row_shows_number_and_title_witness :
  strip_tags (link_text (lit "#f7931a") (lit "#111827")
                (lit "8.2", lit "Gosper's Hack for Subset Enumeration", true))
  = lit "8.2" ++ lit "   " ++ lit "Gosper's Hack for Subset Enumeration".
Proof.
  exact (toc_row_shows_number_and_title
           (lit "#f7931a") (lit "#111827") (lit "8.2")
           (lit "Gosper's Hack for Subset Enumeration") true
           eq_refl eq_refl eq_refl eq_refl eq_refl).
Defined.
